(** * Identity registry, matcher and persistence backends of the face
      recognition library: a shallow embedding and its properties.

    The development follows the Go sources:
    - the numeric utilities [cosineSimilarity], [euclideanDistance] and
      [normalizeFeature],
    - the matcher [matchPerson] and the per-face decision of [Recognize],
    - the options and the registry operations on [*Person] pointers,
    - the three storage backends of [storage.go], [GetStorageMetadata]
      and [SaveDatabase],
    - the per-person locking discipline of [AddFaceSample]. *)

From Stdlib Require Import ZArith List Bool String Ascii Lia.
From Stdlib Require Import Floats.SpecFloat.
From stdpp Require Import base option list gmap strings fin_maps.

Local Open Scope Z_scope.

(** ** IEEE 754 binary32, the Go type [float32]

    Values are [spec_float]s; every operation is the correctly rounded
    (round-to-nearest-even) operation of the format with a 24 bit
    significand and infinities at exponent 128.  Each Go operation is
    rounded on its own (no fused multiply-add). *)
Module F32.

Definition float32 : Type := spec_float.

Definition prec : Z := 24.
Definition emax : Z := 128.
Definition prec64 : Z := 53.
Definition emax64 : Z := 1024.

Definition zero : float32 := S754_zero false.
Definition one : float32 := SFone prec emax.

Definition add (x y : float32) : float32 := SFadd prec emax x y.
Definition mul (x y : float32) : float32 := SFmul prec emax x y.
Definition div (x y : float32) : float32 := SFdiv prec emax x y.

(** Go's [==], [>] (as [ltb] with swapped arguments) and [>=]. *)
Definition eqb (x y : float32) : bool := SFeqb x y.
Definition ltb (x y : float32) : bool := SFltb x y.
Definition leb (x y : float32) : bool := SFleb x y.

(** [float64(x)]: the same value in the binary64 format. *)
Definition to_float64 (x : float32) : spec_float :=
  match x with
  | S754_finite s m e => binary_round prec64 emax64 s m e
  | _ => x
  end.

(** [float32(y)] for a binary64 value: rounding to binary32. *)
Definition of_float64 (y : spec_float) : float32 :=
  match y with
  | S754_finite s m e => binary_round prec emax s m e
  | _ => y
  end.

(** [float32(math.Sqrt(float64(x)))]. *)
Definition sqrt (x : float32) : float32 :=
  of_float64 (SFsqrt prec64 emax64 (to_float64 x)).

(** [float32(n)] for an integer literal. *)
Definition of_Z (n : Z) : float32 := binary_normalize prec emax n 0 false.

(** The binary32 value nearest to [n / d]. *)
Definition of_ratio (n d : Z) : float32 := div (of_Z n) (of_Z d).

(** A value that compares equal to zero: [+0] or [-0]. *)
Definition is_zero (x : float32) : bool :=
  match x with S754_zero _ => true | _ => false end.

Definition sub (x y : float32) : float32 := SFsub prec emax x y.

(** [float32(math.MaxFloat32)]. *)
Definition maxFloat32 : float32 := SFmax_float prec emax.

(** The sign bit is clear: [+0], a positive number or [+Inf]. *)
Definition is_positive (x : float32) : bool :=
  match x with
  | S754_zero s | S754_infinity s | S754_finite s _ _ => negb s
  | S754_nan => false
  end.

(** NaN, or a value that is not below zero. *)
Definition nonneg_or_nan (x : float32) : bool :=
  match x with
  | S754_zero _ | S754_nan => true
  | S754_infinity s | S754_finite s _ _ => negb s
  end.

(** Neither NaN nor infinite. *)
Definition is_finite (x : float32) : bool :=
  match x with
  | S754_zero _ | S754_finite _ _ _ => true
  | _ => false
  end.

Definition is_nan (x : float32) : bool :=
  match x with S754_nan => true | _ => false end.

End F32.

Abbreviation float32 := F32.float32.

(** ** Utility functions of the recognizer *)

(** The loop of [cosineSimilarity]: it runs over the index range of [a];
    the caller has checked that both slices have the same length. *)
Fixpoint cosineLoop (a b : list float32) (dotProduct normA normB : float32)
  : float32 * float32 * float32 :=
  match a, b with
  | x :: a', y :: b' =>
      cosineLoop a' b'
        (F32.add dotProduct (F32.mul x y))
        (F32.add normA (F32.mul x x))
        (F32.add normB (F32.mul y y))
  | _, _ => (dotProduct, normA, normB)
  end.

Definition cosineSimilarity (a b : list float32) : float32 :=
  if negb (Nat.eqb (length a) (length b)) then F32.zero
  else
    let '(dotProduct, normA, normB) :=
      cosineLoop a b F32.zero F32.zero F32.zero in
    if F32.eqb normA F32.zero || F32.eqb normB F32.zero then F32.zero
    else F32.div dotProduct (F32.mul (F32.sqrt normA) (F32.sqrt normB)).

(** The accumulation [norm += v * v] of [normalizeFeature]. *)
Definition sumSquares (feature : list float32) : float32 :=
  fold_left (fun norm v => F32.add norm (F32.mul v v)) feature F32.zero.

Definition normalizeFeature (feature : list float32) : list float32 :=
  let norm := F32.sqrt (sumSquares feature) in
  if F32.eqb norm F32.zero then feature
  else map (fun v => F32.div v norm) feature.

(** The loop of [euclideanDistance]. *)
Fixpoint squaredDistance (a b : list float32) (sum : float32) : float32 :=
  match a, b with
  | x :: a', y :: b' =>
      let diff := F32.sub x y in
      squaredDistance a' b' (F32.add sum (F32.mul diff diff))
  | _, _ => sum
  end.

Definition euclideanDistance (a b : list float32) : float32 :=
  if negb (Nat.eqb (length a) (length b)) then F32.maxFloat32
  else F32.sqrt (squaredDistance a b F32.zero).

(** ** Data model *)

(** [FaceFeature]: one stored sample. *)
Record FaceFeature := mkFaceFeature {
  PersonID : string;
  Feature : list float32
}.

(** [Person], read as a value: the fields the JSON tags name.  The
    mutex is not data. *)
Record Person := mkPerson {
  ID : string;
  Name : string;
  Features : list FaceFeature
}.

(** [image.Rectangle], with [Min] and [Max] flattened. *)
Record Rectangle := mkRectangle {
  MinX : Z; MinY : Z; MaxX : Z; MaxY : Z
}.

Record RecognizeResult := mkRecognizeResult {
  rPersonID : string;
  rPersonName : string;
  rConfidence : float32;
  rBoundingBox : Rectangle
}.

(** ** The matcher *)

(** The running best of [matchPerson]: [bestPersonID], [bestPersonName]
    and [bestConfidence]. *)
Record Best := mkBest {
  bestPersonID : string;
  bestPersonName : string;
  bestConfidence : float32
}.

(** Both strings start as the zero value, the confidence as [0]. *)
Definition best0 : Best := mkBest "" "" F32.zero.

(** Body of the inner loop: one stored sample of [person]. *)
Definition matchSample (feature : list float32) (person : Person)
    (best : Best) (sample : FaceFeature) : Best :=
  let similarity := cosineSimilarity feature (Feature sample) in
  if F32.ltb (bestConfidence best) similarity
  then mkBest (ID person) (Name person) similarity
  else best.

(** Body of the outer loop: all samples of one person, in slice order. *)
Definition matchOnePerson (feature : list float32) (best : Best)
    (person : Person) : Best :=
  fold_left (matchSample feature person) (Features person) best.

(** [matchPerson].  [persons] lists the values of the map [fr.persons]
    in the order in which [range] happens to visit them. *)
Definition matchPerson (feature : list float32) (persons : list Person)
  : Best :=
  fold_left (matchOnePerson feature) persons best0.

(** The decision [Recognize] takes for one detected face whose feature
    was extracted. *)
Definition recognizeFace (threshold : float32) (persons : list Person)
    (feature : list float32) (faceRect : Rectangle) : RecognizeResult :=
  let best := matchPerson feature persons in
  let confidence := bestConfidence best in
  if F32.leb threshold confidence
  then mkRecognizeResult (bestPersonID best) (bestPersonName best)
         confidence faceRect
  else mkRecognizeResult "unknown" "Unknown" confidence faceRect.

(** All similarities the matcher looks at, in visiting order. *)
Definition similarities (feature : list float32) (persons : list Person)
  : list float32 :=
  flat_map (fun person =>
              map (fun sample => cosineSimilarity feature (Feature sample))
                  (Features person))
           persons.

(** No similarity looked at so far exceeds the best. *)
Definition dominates (best : Best) (seen : list float32) : Prop :=
  forall s, In s seen -> F32.ltb (bestConfidence best) s = false.

(** Where the best comes from: the initial value, or a sample of a
    person of the registry whose similarity is positive. *)
Definition attained (feature : list float32) (persons : list Person)
    (best : Best) : Prop :=
  best = best0 \/
  exists person sample,
    In person persons /\ In sample (Features person) /\
    bestPersonID best = ID person /\
    bestPersonName best = Name person /\
    bestConfidence best = cosineSimilarity feature (Feature sample) /\
    F32.ltb F32.zero (bestConfidence best) = true.

(** The stored samples with their owners, in the order in which
    [matchPerson] looks at them. *)
Definition samplesOf (persons : list Person) : list (Person * FaceFeature) :=
  flat_map (fun person => map (pair person) (Features person)) persons.

(** The sign bit of a binary32 value is clear, or the value is NaN. *)
Definition unsigned (x : spec_float) : Prop :=
  F32.is_positive x = true \/ x = S754_nan.

(** ** Results of fallible operations

    [Err msg] is a returned [error] with its message; [Panic] is the
    run-time panic of a nil pointer dereference. *)
Inductive result (A : Type) : Type :=
| Ok (a : A)
| Err (msg : string)
| Panic.
Arguments Ok {A} a.
Arguments Err {A} msg.
Arguments Panic {A}.

Definition is_Ok {A} (r : result A) : bool :=
  match r with Ok _ => true | _ => false end.

(** ** Memory

    [*Person] values are pointers into a store of [Person] structs.  The
    struct holds its [Features] slice; each [FaceFeature] in it holds the
    header of its [Feature] slice, which points to a backing array of
    [float32] ([None] is the nil slice).  A slice covers its whole
    backing array. *)
Abbreviation loc := positive.

Record FeatureCell := mkFeatureCell {
  cPersonID : string;
  cFeature : option loc
}.

Record PersonCell := mkPersonCell {
  cID : string;
  cName : string;
  cFeatures : list FeatureCell
}.

Record Heap := mkHeap {
  structs : gmap loc PersonCell;
  arrays : gmap loc (list float32)
}.

Definition emptyHeap : Heap := mkHeap ∅ ∅.

(** Allocation returns an address that is not in use. *)
Definition newStruct (h : Heap) (c : PersonCell) : loc * Heap :=
  let p := fresh (dom (structs h)) in
  (p, mkHeap (<[p := c]> (structs h)) (arrays h)).

Definition newArray (h : Heap) (v : list float32) : loc * Heap :=
  let a := fresh (dom (arrays h)) in
  (a, mkHeap (structs h) (<[a := v]> (arrays h))).

(** Reading a struct with everything it points to. *)
Definition readSlice (h : Heap) (s : option loc) : list float32 :=
  match s with
  | Some a => default [] (arrays h !! a)
  | None => []
  end.

Definition readFeature (h : Heap) (c : FeatureCell) : FaceFeature :=
  mkFaceFeature (cPersonID c) (readSlice h (cFeature c)).

Definition readCell (h : Heap) (c : PersonCell) : Person :=
  mkPerson (cID c) (cName c) (map (readFeature h) (cFeatures c)).

Definition deref (h : Heap) (p : loc) : option Person :=
  readCell h <$> structs h !! p.

(** Assignments a holder of a pointer can make: [p.Name = name],
    [p.Features = fs] and [s[i] = x] on a [Feature] slice. *)
Definition setName (h : Heap) (p : loc) (name : string) : Heap :=
  mkHeap (alter (fun c => mkPersonCell (cID c) name (cFeatures c)) p
                (structs h))
         (arrays h).

Definition setFeatures (h : Heap) (p : loc) (fs : list FeatureCell) : Heap :=
  mkHeap (alter (fun c => mkPersonCell (cID c) (cName c) fs) p (structs h))
         (arrays h).

Definition setElem (h : Heap) (a : loc) (i : nat) (x : float32) : Heap :=
  mkHeap (structs h) (alter (fun v => <[i := x]> v) a (arrays h)).

(** The visiting order of a [range] over a Go map is not specified: a
    loop over the map [m] sees its entries in some order [visit]. *)
Definition ranges {V} (m : gmap string V) (visit : list (string * V)) : Prop :=
  visit ≡ₚ map_to_list m.

(** ** The recognizer *)

(** Go's [int] on a 64 bit platform. *)
Definition wrap64 (z : Z) : Z := (z + 2 ^ 63) mod 2 ^ 64 - 2 ^ 63.

Record ModelConfig := mkModelConfig {
  Type_ : string;
  InputSize : Z * Z;
  FeatureDim : Z;
  MeanValues : list spec_float;
  ScaleFactor : spec_float;
  SwapRB : bool;
  Crop : bool
}.

Record PigoParams := mkPigoParams {
  MinSize : Z;
  MaxSize : Z;
  ShiftFactor : spec_float;
  pScaleFactor : spec_float;
  QualityThreshold : float32
}.

(** Binary64 constants of the configuration tables. *)
Definition f64 (n d : Z) : spec_float :=
  SFdiv F32.prec64 F32.emax64
    (binary_normalize F32.prec64 F32.emax64 n 0 false)
    (binary_normalize F32.prec64 F32.emax64 d 0 false).

Definition scalar (a b c d : spec_float) : list spec_float := [a; b; c; d].

Definition ModelOpenFace : string := "openface".
Definition ModelFaceNet : string := "facenet".
Definition ModelArcFace : string := "arcface".
Definition ModelDlib : string := "dlib".
Definition ModelCustom : string := "custom".

Definition modelConfigs : gmap string ModelConfig :=
  list_to_map
    [ (ModelOpenFace,
       mkModelConfig ModelOpenFace (96, 96) 128
         (scalar (f64 0 1) (f64 0 1) (f64 0 1) (f64 0 1))
         (f64 1 255) true false);
      (ModelFaceNet,
       mkModelConfig ModelFaceNet (160, 160) 128
         (scalar (f64 0 1) (f64 0 1) (f64 0 1) (f64 0 1))
         (f64 10 1275) true false);
      (ModelArcFace,
       mkModelConfig ModelArcFace (112, 112) 512
         (scalar (f64 1275 10) (f64 1275 10) (f64 1275 10) (f64 0 1))
         (f64 10 1275) true false);
      (ModelDlib,
       mkModelConfig ModelDlib (150, 150) 128
         (scalar (f64 0 1) (f64 0 1) (f64 0 1) (f64 0 1))
         (f64 1 255) true false) ].

(** [FaceRecognizer]: the fields the registry, the matcher and the
    orchestrator read.  The classifier and the network are the external
    collaborators below; the mutex is not data. *)
Record FaceRecognizer := mkFaceRecognizer {
  modelConfig : ModelConfig;
  persons : gmap string loc;
  threshold : float32;
  pigoParams : PigoParams
}.

(** A detection of the cascade: [pigo.Detection]. *)
Record Detection := mkDetection {
  Row : Z; Col : Z; Scale : Z; Q : float32
}.

(** [image.Rect]: the rectangle with the given corners, put in order. *)
Definition Rect (x0 y0 x1 y1 : Z) : Rectangle :=
  let '(x0, x1) := if x1 <? x0 then (x1, x0) else (x0, x1) in
  let '(y0, y1) := if y1 <? y0 then (y1, y0) else (y0, y1) in
  mkRectangle x0 y0 x1 y1.

(** The rectangle [DetectFaces] builds for a detection. *)
Definition faceRectangle (det : Detection) : Rectangle :=
  let x := wrap64 (Col det - Z.quot (Scale det) 2) in
  let y := wrap64 (Row det - Z.quot (Scale det) 2) in
  Rect x y (wrap64 (x + Scale det)) (wrap64 (y + Scale det)).

(** The conversion loop of [DetectFaces] over the clustered detections. *)
Definition facesOf (params : PigoParams) (dets : list Detection)
  : list Rectangle :=
  flat_map (fun det =>
              if F32.ltb (QualityThreshold params) (Q det)
              then [faceRectangle det] else [])
           dets.

Definition AddPerson (fr : FaceRecognizer) (h : Heap) (id name : string)
  : result (FaceRecognizer * Heap) :=
  match persons fr !! id with
  | Some _ => Err ("person ID " ++ id ++ " already exists")
  | None =>
      let '(p, h') := newStruct h (mkPersonCell id name []) in
      Ok (mkFaceRecognizer (modelConfig fr) (<[id := p]> (persons fr))
            (threshold fr) (pigoParams fr), h')
  end.

Definition GetPerson (fr : FaceRecognizer) (id : string) : result loc :=
  match persons fr !! id with
  | Some person => Ok person
  | None => Err ("person ID " ++ id ++ " does not exist")
  end.


Definition RemovePerson (fr : FaceRecognizer) (id : string)
  : result FaceRecognizer :=
  match persons fr !! id with
  | None => Err ("person ID " ++ id ++ " does not exist")
  | Some _ =>
      Ok (mkFaceRecognizer (modelConfig fr) (delete id (persons fr))
            (threshold fr) (pigoParams fr))
  end.

Definition GetSampleCount (fr : FaceRecognizer) (h : Heap) (personID : string)
  : result Z :=
  match persons fr !! personID with
  | None => Err ("person ID " ++ personID ++ " does not exist")
  | Some person =>
      match structs h !! person with
      | Some c => Ok (Z.of_nat (length (cFeatures c)))
      | None => Panic
      end
  end.



Definition GetModelConfig (fr : FaceRecognizer) : ModelConfig :=
  modelConfig fr.

(** ** Options

    An [Option] is a function that updates the recognizer under
    construction. *)
Definition Option : Type := FaceRecognizer -> FaceRecognizer.

Definition WithModelType (modelType : string) : Option :=
  fun fr =>
    match modelConfigs !! modelType with
    | Some config =>
        mkFaceRecognizer config (persons fr) (threshold fr) (pigoParams fr)
    | None => fr
    end.

Definition WithCustomModel (config : ModelConfig) : Option :=
  fun fr =>
    let config :=
      mkModelConfig ModelCustom (InputSize config) (FeatureDim config)
        (MeanValues config) (ScaleFactor config) (SwapRB config)
        (Crop config) in
    mkFaceRecognizer config (persons fr) (threshold fr) (pigoParams fr).

Definition WithSimilarityThreshold (threshold : float32) : Option :=
  fun fr =>
    mkFaceRecognizer (modelConfig fr) (persons fr) threshold (pigoParams fr).

Definition WithPigoParams (params : PigoParams) : Option :=
  fun fr =>
    mkFaceRecognizer (modelConfig fr) (persons fr) (threshold fr) params.

Definition WithMinFaceSize (size : Z) : Option :=
  fun fr =>
    let params := pigoParams fr in
    mkFaceRecognizer (modelConfig fr) (persons fr) (threshold fr)
      (mkPigoParams size (MaxSize params) (ShiftFactor params)
                    (pScaleFactor params) (QualityThreshold params)).

Definition WithMaxFaceSize (size : Z) : Option :=
  fun fr =>
    let params := pigoParams fr in
    mkFaceRecognizer (modelConfig fr) (persons fr) (threshold fr)
      (mkPigoParams (MinSize params) size (ShiftFactor params)
                    (pScaleFactor params) (QualityThreshold params)).

(** The options this file defines on the fields above. *)
Inductive libraryOption : Option -> Prop :=
| IsWithModelType modelType : libraryOption (WithModelType modelType)
| IsWithCustomModel config : libraryOption (WithCustomModel config)
| IsWithSimilarityThreshold threshold :
    libraryOption (WithSimilarityThreshold threshold)
| IsWithPigoParams params : libraryOption (WithPigoParams params)
| IsWithMinFaceSize size : libraryOption (WithMinFaceSize size)
| IsWithMaxFaceSize size : libraryOption (WithMaxFaceSize size).

(** The zero value of [ModelConfig]: what a map lookup yields for a key
    that is absent. *)
Definition zeroModelConfig : ModelConfig :=
  mkModelConfig "" (0, 0) 0
    (scalar (f64 0 1) (f64 0 1) (f64 0 1) (f64 0 1)) (f64 0 1) false false.

(** The first part of [NewFaceRecognizer]: the struct with its defaults,
    then the options in the order given.  Loading the cascade and the
    network, which follows, does not touch these fields. *)
Definition configured (opts : list Option) : FaceRecognizer :=
  fold_left (fun fr opt => opt fr) opts
    (mkFaceRecognizer
       (default zeroModelConfig (modelConfigs !! ModelOpenFace))
       ∅
       (F32.of_ratio 6 10)
       (mkPigoParams 100 1000 (f64 1 10) (f64 11 10) (F32.of_Z 5))).

Section Orchestrator.

(** The external collaborators: [gocv.Mat] and [image.Image] values,
    the Pigo cascade (grayscale conversion, [RunCascade] and
    [ClusterDetections]) and the encoder network (resize, blob,
    forward pass, read-out of the output row). *)
Variable Mat : Type.
Variable GoImage : Type.
Variable ToImage : Mat -> option GoImage.
Variable Region : Mat -> Rectangle -> Mat.
Variable MatEmpty : Mat -> bool.
Variable cascade : PigoParams -> GoImage -> list Detection.
Variable forward :
  Z * Z -> spec_float -> list spec_float -> bool -> bool -> Mat ->
  list float32.

Definition DetectFaces (fr : FaceRecognizer) (img : GoImage)
  : list Rectangle :=
  facesOf (pigoParams fr) (cascade (pigoParams fr) img).

Definition ExtractFeature (fr : FaceRecognizer) (faceImg : Mat)
  : result (list float32) :=
  if MatEmpty faceImg then Err "input image is empty"
  else
    let cfg := modelConfig fr in
    let feature :=
      forward (InputSize cfg) (ScaleFactor cfg) (MeanValues cfg)
              (SwapRB cfg) (Crop cfg) faceImg in
    Ok (normalizeFeature feature).

(** What the encoder and the normalizer produce for a face image. *)
Definition encoded (fr : FaceRecognizer) (faceImg : Mat) : list float32 :=
  let cfg := modelConfig fr in
  normalizeFeature
    (forward (InputSize cfg) (ScaleFactor cfg) (MeanValues cfg)
             (SwapRB cfg) (Crop cfg) faceImg).


(** [AddFaceSample].  The registry map is only read; the sample goes
    into the struct the map points to. *)
Definition AddFaceSample (fr : FaceRecognizer) (h : Heap)
    (personID : string) (img : Mat) : result Heap :=
  match persons fr !! personID with
  | None => Err ("person ID " ++ personID ++ " does not exist")
  | Some person =>
      match ToImage img with
      | None => Err "failed to convert image"
      | Some goImg =>
          match DetectFaces fr goImg with
          | [] => Err "no face detected in image"
          | face0 :: _ =>
              let faceRegion := Region img face0 in
              match ExtractFeature fr faceRegion with
              | Err msg => Err ("failed to extract feature: " ++ msg)
              | Panic => Panic
              | Ok feature =>
                  let '(a, h1) := newArray h feature in
                  match structs h1 !! person with
                  | None => Panic
                  | Some c =>
                      Ok (setFeatures h1 person
                            (cFeatures c ++
                             [mkFeatureCell personID (Some a)]))
                  end
              end
          end
      end
  end.

(** The loop of [Recognize] over the detected faces.  [seen i] is what
    the [i]-th call of [matchPerson] reads from the registry. *)
Fixpoint recognizeFaces (fr : FaceRecognizer) (seen : nat -> list Person)
    (img : Mat) (i : nat) (faces : list Rectangle)
  : list RecognizeResult :=
  match faces with
  | [] => []
  | faceRect :: rest =>
      match ExtractFeature fr (Region img faceRect) with
      | Ok feature =>
          recognizeFace (threshold fr) (seen i) feature faceRect
            :: recognizeFaces fr seen img (S i) rest
      | _ => recognizeFaces fr seen img i rest
      end
  end.

Definition Recognize (fr : FaceRecognizer) (seen : nat -> list Person)
    (img : Mat) : result (list RecognizeResult) :=
  match ToImage img with
  | None => Err "failed to convert image"
  | Some goImg =>
      Ok (recognizeFaces fr seen img 0 (DetectFaces fr goImg))
  end.

End Orchestrator.

(** ** Storage backends *)

(** An entry of a directory listing: [os.FileInfo]. *)
Record FileInfo := mkFileInfo {
  fiName : string;
  fiIsDir : bool
}.

(** Outcome of [ioutil.ReadFile]; [ReadNotExist] is an error for which
    [os.IsNotExist] holds. *)
Inductive readResult (D : Type) : Type :=
| ReadOk (data : D)
| ReadNotExist (msg : string)
| ReadFail (msg : string).
Arguments ReadOk {D} data.
Arguments ReadNotExist {D} msg.
Arguments ReadFail {D} msg.

(** What the storage code calls outside the repository: the JSON codec
    of [encoding/json] at the two types it is used at, the file
    operations of [io/ioutil], and [filepath.Join].  [WriteFile] returns
    the new state of the file system and the error, if any. *)
Class Env := {
  Data : Type;
  FS : Type;
  MarshalIndent : Person -> result Data;
  MarshalIndentMap : gmap string (option Person) -> result Data;
  Unmarshal : Data -> result Person;
  ReadFile : FS -> string -> readResult Data;
  WriteFile : FS -> string -> Data -> FS * option string;
  ReadDir : FS -> string -> result (list FileInfo);
  Join : string -> string -> string
}.

(** A file that was written without error reads back as written. *)
Definition read_after_write `{Env} : Prop :=
  forall fs path data fs',
    WriteFile fs path data = (fs', None) ->
    ReadFile fs' path = ReadOk data.

(** [filepath.Ext]: the suffix of the last path element that starts at
    its last dot, found by scanning backwards. *)
Fixpoint extScan (reversed : list ascii) (suffix : list ascii) : list ascii :=
  match reversed with
  | [] => []
  | c :: before =>
      if Ascii.eqb c "/" then []
      else if Ascii.eqb c "." then c :: suffix
      else extScan before (c :: suffix)
  end.

Definition Ext (path : string) : string :=
  string_of_list_ascii (extScan (rev (list_ascii_of_string path)) []).

(** The slice expression [s[:n]] for [0 <= n <= len(s)]. *)
Definition sliceTo (s : string) (n : nat) : string :=
  string_of_list_ascii (take n (list_ascii_of_string s)).

(** [holds h l p]: the struct at [l] and the arrays it points to hold
    the value [p]. *)
Definition holdsFeature (h : Heap) (cell : FeatureCell) (f : FaceFeature)
  : Prop :=
  cPersonID cell = PersonID f /\
  match cFeature cell with
  | Some a => arrays h !! a = Some (Feature f)
  | None => Feature f = []
  end.

Definition holds (h : Heap) (l : loc) (p : Person) : Prop :=
  exists c,
    structs h !! l = Some c /\ cID c = ID p /\ cName c = Name p /\
    Forall2 (holdsFeature h) (cFeatures c) (Features p).

(** Memory grows: what was allocated stays as it is. *)
Definition extends (h h' : Heap) : Prop :=
  structs h ⊆ structs h' /\ arrays h ⊆ arrays h'.

(** Storing a [Person] value in fresh memory: what taking the address of
    a decoded [Person] amounts to. *)
Fixpoint allocFeatures (h : Heap) (fs : list FaceFeature)
  : list FeatureCell * Heap :=
  match fs with
  | [] => ([], h)
  | f :: rest =>
      let '(a, h1) := newArray h (Feature f) in
      let '(cells, h2) := allocFeatures h1 rest in
      (mkFeatureCell (PersonID f) (Some a) :: cells, h2)
  end.

Definition allocPerson (h : Heap) (p : Person) : loc * Heap :=
  let '(cells, h1) := allocFeatures h (Features p) in
  newStruct h1 (mkPersonCell (ID p) (Name p) cells).

(** The struct literal with [make] and [copy] that [MemoryStorage] uses:
    a new struct with a new [Features] slice; the copied [FaceFeature]
    values keep their [Feature] slice headers. *)
Definition copyPerson (h : Heap) (c : PersonCell) : loc * Heap :=
  newStruct h (mkPersonCell (cID c) (cName c) (cFeatures c)).

Module MemoryStorage.

(** The field [persons]. *)
Abbreviation t := (gmap string loc).

Definition NewMemoryStorage : t := ∅.

Definition SavePerson (s : t) (h : Heap) (person : loc)
  : t * Heap * result unit :=
  match structs h !! person with
  | None => (s, h, Panic)
  | Some c =>
      let '(personCopy, h') := copyPerson h c in
      (<[cID c := personCopy]> s, h', Ok tt)
  end.

Definition LoadPerson (s : t) (h : Heap) (id : string)
  : Heap * result loc :=
  match s !! id with
  | None => (h, Err ("person not found: " ++ id))
  | Some person =>
      match structs h !! person with
      | None => (h, Panic)
      | Some c =>
          let '(personCopy, h') := copyPerson h c in
          (h', Ok personCopy)
      end
  end.

(** The loop of [LoadAllPersons] over the entries it visits. *)
Fixpoint loadAll (h : Heap) (visit : list (string * loc)) (acc : list loc)
  : Heap * result (list loc) :=
  match visit with
  | [] => (h, Ok acc)
  | (_, person) :: rest =>
      match structs h !! person with
      | None => (h, Panic)
      | Some c =>
          let '(personCopy, h') := copyPerson h c in
          loadAll h' rest (acc ++ [personCopy])
      end
  end.

Definition LoadAllPersons (h : Heap) (visit : list (string * loc))
  : Heap * result (list loc) :=
  loadAll h visit [].

Definition DeletePerson (s : t) (id : string) : t * result unit :=
  match s !! id with
  | None => (s, Err ("person not found: " ++ id))
  | Some _ => (delete id s, Ok tt)
  end.

Definition PersonExists (s : t) (id : string) : result bool :=
  match s !! id with
  | Some _ => Ok true
  | None => Ok false
  end.

Definition Close (s : t) : result unit := Ok tt.

End MemoryStorage.

Module FileStorage.

Section WithEnv.
Context `{Env}.

(** [fmt.Sprintf("%s.json", id)] joined to the base directory. *)
Definition getPersonPath (baseDir id : string) : string :=
  Join baseDir (id ++ ".json").

Definition SavePerson (baseDir : string) (h : Heap) (fs : FS)
    (person : loc) : FS * result unit :=
  match deref h person with
  | None => (fs, Panic)
  | Some p =>
      match MarshalIndent p with
      | Err msg => (fs, Err ("failed to marshal person: " ++ msg))
      | Panic => (fs, Panic)
      | Ok data =>
          let path := getPersonPath baseDir (ID p) in
          match WriteFile fs path data with
          | (fs', Some msg) =>
              (fs', Err ("failed to write person file: " ++ msg))
          | (fs', None) => (fs', Ok tt)
          end
      end
  end.

Definition LoadPerson (baseDir : string) (h : Heap) (fs : FS)
    (id : string) : Heap * result loc :=
  let path := getPersonPath baseDir id in
  match ReadFile fs path with
  | ReadNotExist _ => (h, Err ("person not found: " ++ id))
  | ReadFail msg => (h, Err ("failed to read person file: " ++ msg))
  | ReadOk data =>
      match Unmarshal data with
      | Ok p => let '(person, h') := allocPerson h p in (h', Ok person)
      | Err msg => (h, Err ("failed to unmarshal person: " ++ msg))
      | Panic => (h, Panic)
      end
  end.

(** What the file of [id] holds when it can be read and decoded. *)
Definition stored (baseDir : string) (fs : FS) (id : string)
  : option Person :=
  match ReadFile fs (getPersonPath baseDir id) with
  | ReadOk data =>
      match Unmarshal data with
      | Ok p => Some p
      | _ => None
      end
  | _ => None
  end.

(** An entry of the listing that [LoadAllPersons] keeps: a file, not
    a directory, whose name ends in [.json] and whose content decodes
    to [p]. *)
Definition healthy (baseDir : string) (fs : FS) (file : FileInfo)
    (p : Person) : Prop :=
  fiIsDir file = false /\ Ext (fiName file) = ".json" /\
  stored baseDir fs
    (sliceTo (fiName file) (String.length (fiName file) - 5)) = Some p.

(** The loop of [LoadAllPersons] over the directory listing. *)
Fixpoint loadAll (baseDir : string) (h : Heap) (fs : FS)
    (files : list FileInfo) (acc : list loc) : Heap * list loc :=
  match files with
  | [] => (h, acc)
  | file :: rest =>
      if fiIsDir file || negb (String.eqb (Ext (fiName file)) ".json")
      then loadAll baseDir h fs rest acc
      else
        let id := sliceTo (fiName file)
                          (String.length (fiName file) - 5) in
        match LoadPerson baseDir h fs id with
        | (h', Ok person) => loadAll baseDir h' fs rest (acc ++ [person])
        | (_, _) => loadAll baseDir h fs rest acc
        end
  end.

Definition LoadAllPersons (baseDir : string) (h : Heap) (fs : FS)
  : Heap * result (list loc) :=
  match ReadDir fs baseDir with
  | Ok files =>
      let '(h', persons) := loadAll baseDir h fs files [] in
      (h', Ok persons)
  | Err msg => (h, Err ("failed to read storage directory: " ++ msg))
  | Panic => (h, Panic)
  end.

End WithEnv.

End FileStorage.

Module JSONStorage.

Record t := mk {
  filepath : string;
  persons : gmap string loc
}.

Section WithEnv.
Context `{Env}.

(** [json.MarshalIndent(s.persons, ...)] sees, for every key, the
    person the pointer leads to (or a nil pointer). *)
Definition save (s : t) (h : Heap) (fs : FS) : FS * result unit :=
  match MarshalIndentMap (deref h <$> persons s) with
  | Err msg => (fs, Err msg)
  | Panic => (fs, Panic)
  | Ok data =>
      match WriteFile fs (filepath s) data with
      | (fs', Some msg) => (fs', Err msg)
      | (fs', None) => (fs', Ok tt)
      end
  end.

Definition SavePerson (s : t) (h : Heap) (fs : FS) (person : loc)
  : t * FS * result unit :=
  match structs h !! person with
  | None => (s, fs, Panic)
  | Some c =>
      let s' := mk (filepath s) (<[cID c := person]> (persons s)) in
      let '(fs', r) := save s' h fs in
      (s', fs', r)
  end.

Definition DeletePerson (s : t) (h : Heap) (fs : FS) (id : string)
  : t * FS * result unit :=
  match persons s !! id with
  | None => (s, fs, Err ("person not found: " ++ id))
  | Some _ =>
      let s' := mk (filepath s) (delete id (persons s)) in
      let '(fs', r) := save s' h fs in
      (s', fs', r)
  end.

Definition Close (s : t) (h : Heap) (fs : FS) : FS * result unit :=
  save s h fs.

End WithEnv.

Definition PersonExists (s : t) (id : string) : result bool :=
  match persons s !! id with
  | Some _ => Ok true
  | None => Ok false
  end.

Definition LoadPerson (s : t) (id : string) : result loc :=
  match persons s !! id with
  | None => Err ("person not found: " ++ id)
  | Some person => Ok person
  end.

Definition LoadAllPersons (visit : list (string * loc)) : list loc :=
  fold_left (fun persons '(_, person) => persons ++ [person]) visit [].

End JSONStorage.

(** [SaveDatabase] of the recognizer: the registry map goes through the
    same encoder as the map of [JSONStorage]. *)
Section Database.
Context `{Env}.

Definition SaveDatabase (fr : FaceRecognizer) (h : Heap) (fs : FS)
    (filepath : string) : FS * result unit :=
  match MarshalIndentMap (deref h <$> persons fr) with
  | Err msg => (fs, Err ("failed to marshal database: " ++ msg))
  | Panic => (fs, Panic)
  | Ok data =>
      match WriteFile fs filepath data with
      | (fs', Some msg) => (fs', Err msg)
      | (fs', None) => (fs', Ok tt)
      end
  end.

End Database.

(** A person one of whose embeddings has a NaN component. *)
Definition hasNaN (p : Person) : Prop :=
  exists sample, In sample (Features p) /\ In S754_nan (Feature sample).

(** The encoder has no representation for NaN: a map with such a person
    in it is not encoded. *)
Definition rejects_NaN `{Env} : Prop :=
  forall (m : gmap string (option Person)) k p,
    m !! k = Some (Some p) -> hasNaN p ->
    exists msg, MarshalIndentMap m = Err msg.

(** The number of samples of the struct at [person]. *)
Definition samplesAt (h : Heap) (person : loc) : Z :=
  match structs h !! person with
  | Some c => Z.of_nat (length (cFeatures c))
  | None => 0
  end.

Definition totalSamples (h : Heap) (persons : list loc) : Z :=
  foldr (fun person total => samplesAt h person + total) 0 persons.

(** [StorageMetadata] without [LastUpdated], which is the clock's. *)
Record StorageMetadata := mkStorageMetadata {
  TotalPersons : Z;
  TotalFeatures : Z
}.

(** The counting loop of [GetStorageMetadata] over the loaded persons. *)
Fixpoint countFeatures (h : Heap) (persons : list loc) (totalFeatures : Z)
  : result Z :=
  match persons with
  | [] => Ok totalFeatures
  | person :: rest =>
      match structs h !! person with
      | None => Panic
      | Some c =>
          countFeatures h rest
            (wrap64 (totalFeatures + Z.of_nat (length (cFeatures c))))
      end
  end.

(** [GetStorageMetadata], given what [storage.LoadAllPersons()] returned
    and the memory it left. *)
Definition GetStorageMetadata (h : Heap) (loaded : result (list loc))
  : result StorageMetadata :=
  match loaded with
  | Err msg => Err msg
  | Panic => Panic
  | Ok persons =>
      match countFeatures h persons 0 with
      | Ok totalFeatures =>
          Ok (mkStorageMetadata (Z.of_nat (length persons)) totalFeatures)
      | Err msg => Err msg
      | Panic => Panic
      end
  end.

(** ** A reference environment

    A concrete codec and file system on which the backends can be run.
    The codec follows [encoding/json] on [Person] records: a number that
    is NaN or infinite is an [UnsupportedValueError], strings are coerced
    to valid UTF-8 (every invalid byte becomes U+FFFD), map keys are
    written in sorted order, and decoding what was written returns the
    record that was written.  A file holds a person document, an
    aggregate document or bytes that are no JSON document.  The file
    system is a map from directories to their files. *)
Module RefEnv.

Definition inRange (lo hi : N) (c : ascii) : bool :=
  (lo <=? N_of_ascii c)%N && (N_of_ascii c <=? hi)%N.

Definition isCont (c : ascii) : bool := inRange 128 191 c.

(** The number of continuation bytes of the UTF-8 sequence that starts
    with [c0], if [c0 :: rest] starts with a valid sequence. *)
Definition runeLen (c0 : ascii) (rest : list ascii) : option nat :=
  if inRange 0 127 c0 then Some 0%nat
  else if inRange 194 223 c0 then
    match rest with
    | c1 :: _ => if isCont c1 then Some 1%nat else None
    | _ => None
    end
  else if inRange 224 239 c0 then
    match rest with
    | c1 :: c2 :: _ =>
        let ok1 :=
          if inRange 224 224 c0 then inRange 160 191 c1
          else if inRange 237 237 c0 then inRange 128 159 c1
          else isCont c1 in
        if ok1 && isCont c2 then Some 2%nat else None
    | _ => None
    end
  else if inRange 240 244 c0 then
    match rest with
    | c1 :: c2 :: c3 :: _ =>
        let ok1 :=
          if inRange 240 240 c0 then inRange 144 191 c1
          else if inRange 244 244 c0 then inRange 128 143 c1
          else isCont c1 in
        if ok1 && isCont c2 && isCont c3 then Some 3%nat else None
    | _ => None
    end
  else None.

(** U+FFFD in UTF-8. *)
Definition replacement : list ascii :=
  [ascii_of_N 239; ascii_of_N 191; ascii_of_N 189].

Fixpoint coerceBytes (pending : nat) (s : list ascii) : list ascii :=
  match s with
  | [] => []
  | c :: rest =>
      match pending with
      | S k => c :: coerceBytes k rest
      | O =>
          match runeLen c rest with
          | Some n => c :: coerceBytes n rest
          | None => replacement ++ coerceBytes 0 rest
          end
      end
  end.

Definition toValidUTF8 (s : string) : string :=
  string_of_list_ascii (coerceBytes 0 (list_ascii_of_string s)).

Definition coerceFeature (f : FaceFeature) : FaceFeature :=
  mkFaceFeature (toValidUTF8 (PersonID f)) (Feature f).

Definition coercePerson (p : Person) : Person :=
  mkPerson (toValidUTF8 (ID p)) (toValidUTF8 (Name p))
           (map coerceFeature (Features p)).

(** The text of an [UnsupportedValueError] for a number. *)
Definition unsupported (x : float32) : option string :=
  match x with
  | S754_nan => Some "NaN"
  | S754_infinity false => Some "+Inf"
  | S754_infinity true => Some "-Inf"
  | _ => None
  end.

Definition firstUnsupported (p : Person) : option string :=
  list_find (fun o : option string => is_Some o)
            (map unsupported (flat_map Feature (Features p)))
    ≫= snd.

Inductive FileData :=
| PersonDoc (p : Person)
| DatabaseDoc (entries : list (string * option Person))
| Malformed (bytes : string).

Definition marshalPerson (p : Person) : result FileData :=
  match firstUnsupported p with
  | Some v => Err ("json: unsupported value: " ++ v)
  | None => Ok (PersonDoc (coercePerson p))
  end.

(** Insertion of an entry into a list sorted by key. *)
Fixpoint insertEntry {V} (k : string) (v : V) (l : list (string * V))
  : list (string * V) :=
  match l with
  | [] => [(k, v)]
  | (k', v') :: rest =>
      if String.leb k k' then (k, v) :: l
      else (k', v') :: insertEntry k v rest
  end.

Definition sortEntries {V} (l : list (string * V)) : list (string * V) :=
  foldr (fun '(k, v) acc => insertEntry k v acc) [] l.

Fixpoint marshalEntries (l : list (string * option Person))
  : result (list (string * option Person)) :=
  match l with
  | [] => Ok []
  | (k, o) :: rest =>
      match o ≫= firstUnsupported with
      | Some v => Err ("json: unsupported value: " ++ v)
      | None =>
          match marshalEntries rest with
          | Ok rest' => Ok ((toValidUTF8 k, coercePerson <$> o) :: rest')
          | e => e
          end
      end
  end.

Definition marshalMap (m : gmap string (option Person)) : result FileData :=
  match marshalEntries (sortEntries (map_to_list m)) with
  | Ok entries => Ok (DatabaseDoc entries)
  | Err msg => Err msg
  | Panic => Panic
  end.

Definition unmarshalPerson (data : FileData) : result Person :=
  match data with
  | PersonDoc p => Ok p
  | _ => Err "no person document"
  end.

(** Directories and their files. *)
Abbreviation FileSystem := (gmap string (gmap string FileData)).

(** A path, split at its last separator. *)
Fixpoint splitScan (reversed : list ascii) (name : list ascii)
  : string * string :=
  match reversed with
  | [] => ("", string_of_list_ascii name)
  | c :: before =>
      if Ascii.eqb c "/"
      then (string_of_list_ascii (rev before), string_of_list_ascii name)
      else splitScan before (c :: name)
  end.

Definition splitPath (path : string) : string * string :=
  splitScan (rev (list_ascii_of_string path)) [].

Definition noSuchFile (op path : string) : string :=
  op ++ " " ++ path ++ ": no such file or directory".

Definition readFile (fs : FileSystem) (path : string) : readResult FileData :=
  let '(dir, name) := splitPath path in
  match fs !! dir ≫= (fun d => d !! name) with
  | Some data => ReadOk data
  | None => ReadNotExist (noSuchFile "open" path)
  end.

Definition writeFile (fs : FileSystem) (path : string) (data : FileData)
  : FileSystem * option string :=
  let '(dir, name) := splitPath path in
  match fs !! dir with
  | Some d => (<[dir := <[name := data]> d]> fs, None)
  | None => (fs, Some (noSuchFile "open" path))
  end.

Definition readDir (fs : FileSystem) (dir : string) : result (list FileInfo) :=
  match fs !! dir with
  | Some d =>
      Ok (map (fun '(name, _) => mkFileInfo name false)
              (sortEntries (map_to_list d)))
  | None => Err (noSuchFile "open" dir)
  end.

Definition join (dir name : string) : string := dir ++ "/" ++ name.

#[export] Instance env : Env := {|
  Data := FileData;
  FS := FileSystem;
  MarshalIndent := marshalPerson;
  MarshalIndentMap := marshalMap;
  Unmarshal := unmarshalPerson;
  ReadFile := readFile;
  WriteFile := writeFile;
  ReadDir := readDir;
  Join := join
|}.

End RefEnv.

(** ** Goroutines calling [AddFaceSample]

    An interleaving model of concurrent calls of [AddFaceSample] on one
    recognizer.  A goroutine is at one of the points of the function
    where it touches shared state; a step executes the operation at that
    point.  The slice assignment [person.Features = append(...)] is two
    steps, the read of the old slice header and the write of the new
    one.  Detection and extraction work on the goroutine's own data and
    have succeeded: the goroutine carries the sample it will append.  No
    call of [AddPerson] or [RemovePerson] runs, so [fr.mu] has no
    writer and [RLock] is granted at once. *)
Module Concurrent.

Inductive pc :=
| AtRLock                       (* fr.mu.RLock() *)
| AtLookup                      (* person, exists := fr.persons[personID] *)
| AtRUnlock (found : option loc)  (* fr.mu.RUnlock(), then the exists test *)
| AtLock (person : loc)         (* person.mu.Lock() *)
| AtRead (person : loc)         (* evaluates person.Features *)
| AtWrite (person : loc) (old : list FeatureCell)
                                (* person.Features = append(old, sample) *)
| AtUnlock (person : loc)       (* person.mu.Unlock() *)
| Returned (err : option string)
| Panicked.

Record Goroutine := mkGoroutine {
  gPersonID : string;
  gSample : FeatureCell;
  gpc : pc
}.

(** The shared state: memory, the registry map, the number of holders
    of the read lock of [fr.mu], the holder of each [person.mu], and
    the goroutines. *)
Record World := mkWorld {
  wHeap : Heap;
  wPersons : gmap string loc;
  wReaders : nat;
  wLocks : gmap loc nat;
  wThreads : list Goroutine
}.

Definition moveTo (w : World) (i : nat) (t : Goroutine) (next : pc)
  : list Goroutine :=
  <[i := mkGoroutine (gPersonID t) (gSample t) next]> (wThreads w).

(** One step of goroutine [i]; [None] when it has no step: it waits
    for a mutex, it has returned, or there is no such goroutine. *)
Definition step (w : World) (i : nat) : option World :=
  match wThreads w !! i with
  | None => None
  | Some t =>
      match gpc t with
      | AtRLock =>
          Some (mkWorld (wHeap w) (wPersons w) (S (wReaders w)) (wLocks w)
                  (moveTo w i t AtLookup))
      | AtLookup =>
          Some (mkWorld (wHeap w) (wPersons w) (wReaders w) (wLocks w)
                  (moveTo w i t (AtRUnlock (wPersons w !! gPersonID t))))
      | AtRUnlock found =>
          let next :=
            match found with
            | Some person => AtLock person
            | None =>
                Returned (Some ("person ID " ++ gPersonID t ++
                                " does not exist")%string)
            end in
          Some (mkWorld (wHeap w) (wPersons w) (Nat.pred (wReaders w))
                  (wLocks w) (moveTo w i t next))
      | AtLock person =>
          match structs (wHeap w) !! person with
          | None =>
              Some (mkWorld (wHeap w) (wPersons w) (wReaders w) (wLocks w)
                      (moveTo w i t Panicked))
          | Some _ =>
              match wLocks w !! person with
              | Some _ => None
              | None =>
                  Some (mkWorld (wHeap w) (wPersons w) (wReaders w)
                          (<[person := i]> (wLocks w))
                          (moveTo w i t (AtRead person)))
              end
          end
      | AtRead person =>
          match structs (wHeap w) !! person with
          | None =>
              Some (mkWorld (wHeap w) (wPersons w) (wReaders w) (wLocks w)
                      (moveTo w i t Panicked))
          | Some c =>
              Some (mkWorld (wHeap w) (wPersons w) (wReaders w) (wLocks w)
                      (moveTo w i t (AtWrite person (cFeatures c))))
          end
      | AtWrite person old =>
          Some (mkWorld (setFeatures (wHeap w) person (old ++ [gSample t]))
                  (wPersons w) (wReaders w) (wLocks w)
                  (moveTo w i t (AtUnlock person)))
      | AtUnlock person =>
          Some (mkWorld (wHeap w) (wPersons w) (wReaders w)
                  (delete person (wLocks w))
                  (moveTo w i t (Returned None)))
      | Returned _ | Panicked => None
      end
  end.

(** Running a schedule: the goroutines that step, in order. *)
Fixpoint run (w : World) (schedule : list nat) : option World :=
  match schedule with
  | [] => Some w
  | i :: rest =>
      match step w i with
      | Some w' => run w' rest
      | None => None
      end
  end.



(** The calls [AddFaceSample(id, ...)] about to start, one goroutine
    per call. *)
Definition spawn (calls : list (string * FeatureCell)) : list Goroutine :=
  map (fun '(id, sample) => mkGoroutine id sample AtRLock) calls.

Definition start (h : Heap) (registry : gmap string loc)
    (calls : list (string * FeatureCell)) : World :=
  mkWorld h registry 0 ∅ (spawn calls).


(** The goroutine is between [Lock] and [Unlock] of [person.mu]. *)
Definition inCritical (person : loc) (t : Goroutine) : Prop :=
  match gpc t with
  | AtRead q | AtWrite q _ | AtUnlock q => q = person
  | _ => False
  end.

(** The goroutine has written its sample into [person]. *)
Definition wrote (registry : gmap string loc) (person : loc)
    (t : Goroutine) : bool :=
  match gpc t with
  | AtUnlock _ | Returned None =>
      bool_decide (registry !! gPersonID t = Some person)
  | _ => false
  end.

(** What holds of goroutine [i] in a reachable world. *)
Definition consistent (w : World) (i : nat) (t : Goroutine) : Prop :=
  match gpc t with
  | AtRLock | AtLookup => True
  | AtRUnlock found => found = wPersons w !! gPersonID t
  | AtLock person => wPersons w !! gPersonID t = Some person
  | AtRead person | AtUnlock person =>
      wPersons w !! gPersonID t = Some person /\
      wLocks w !! person = Some i
  | AtWrite person old =>
      wPersons w !! gPersonID t = Some person /\
      wLocks w !! person = Some i /\
      exists c, structs (wHeap w) !! person = Some c /\ cFeatures c = old
  | Returned None => is_Some (wPersons w !! gPersonID t)
  | Returned (Some _) => wPersons w !! gPersonID t = None
  | Panicked => False
  end.

(** The invariant of the worlds reachable from [start h registry calls]. *)
Record invariant (h : Heap) (registry : gmap string loc)
    (calls : list (string * FeatureCell)) (w : World) : Prop := {
  inv_persons : wPersons w = registry;
  inv_calls :
    map (fun t => (gPersonID t, gSample t)) (wThreads w) = calls;
  inv_threads :
    forall i t, wThreads w !! i = Some t -> consistent w i t;
  inv_locks :
    forall person i,
      wLocks w !! person = Some i ->
      exists t, wThreads w !! i = Some t /\ inCritical person t;
  inv_count :
    forall person c0,
      structs h !! person = Some c0 ->
      exists c,
        structs (wHeap w) !! person = Some c /\
        length (cFeatures c)
        = (length (cFeatures c0)
           + length (List.filter (wrote registry person) (wThreads w)))%nat
}.



End Concurrent.

(** ** Proof automation for the order on binary32 *)

Ltac float_order :=
  unfold F32.ltb, F32.leb, F32.eqb, SFltb, SFleb, SFeqb, SFcompare;
  repeat match goal with
         | |- context [match ?x with S754_zero _ => _ | _ => _ end] =>
             is_var x; destruct x
         | s : bool |- _ => destruct s
         end;
  simpl; try congruence;
  repeat match goal with
         | |- context [Z.compare ?a ?b] => destruct (Z.compare_spec a b)
         | |- context [Pos.compare_cont Eq ?a ?b] =>
             change (Pos.compare_cont Eq a b) with (Pos.compare a b);
             destruct (Pos.compare_spec a b)
         end;
  simpl; try congruence; try lia.

(** ** Example data

    Concrete registries, memories, collaborators and schedules on which
    the definitions are run. *)

Module MatcherExamples.

Definition vec (l : list Z) : list float32 := map F32.of_Z l.

(** The default threshold [0.6]. *)
Definition threshold06 : float32 := F32.of_ratio 6 10.

Definition box : Rectangle := mkRectangle 0 0 10 10.

Definition personA : Person :=
  mkPerson "A" "Alice" [mkFaceFeature "A" (vec [1; 0; 0])].
Definition personB : Person :=
  mkPerson "B" "Bob" [mkFaceFeature "B" (vec [0; 1; 0])].

(** A person whose only sample points away from the query [1,0,0]. *)
Definition personN : Person :=
  mkPerson "N" "Nobody" [mkFaceFeature "N" (vec [-1; 0; 0])].

Definition query : list float32 :=
  normalizeFeature [F32.of_ratio 9 10; F32.of_ratio 1 10; F32.zero].

End MatcherExamples.

Module RegistryExamples.
Import MatcherExamples.

Definition defaultParams : PigoParams :=
  mkPigoParams 100 1000 (f64 1 10) (f64 11 10) (F32.of_Z 5).

Definition openFace : ModelConfig :=
  mkModelConfig ModelOpenFace (96, 96) 128
    (scalar (f64 0 1) (f64 0 1) (f64 0 1) (f64 0 1)) (f64 1 255) true false.

(** The recognizer [NewFaceRecognizer] builds with no options. *)
Definition fr0 : FaceRecognizer :=
  mkFaceRecognizer openFace ∅ (F32.of_ratio 6 10) defaultParams.

(** The registry after [AddPerson("001", "Alice")]. *)
Definition alice : loc := 1%positive.
Definition fr1 : FaceRecognizer :=
  mkFaceRecognizer openFace {[ "001" := alice ]} (F32.of_ratio 6 10)
    defaultParams.
Definition h1 : Heap :=
  mkHeap {[ alice := mkPersonCell "001" "Alice" [] ]} ∅.

End RegistryExamples.

(** *** A concrete detector and encoder

    An image is the rectangle it shows (or the whole picture); the
    cascade reports two faces, the second with the better score and the
    larger box; the encoder maps a region to a vector that tells the
    regions apart. *)
Module OrchestratorExamples.
Import MatcherExamples.
Import RegistryExamples.

Definition Mat : Type := option Rectangle.
Definition GoImage : Type := unit.
Definition ToImage (img : Mat) : option GoImage := Some tt.
Definition Region (img : Mat) (r : Rectangle) : Mat := Some r.
Definition MatEmpty (img : Mat) : bool := false.

Definition det1 : Detection := mkDetection 50 50 10 (F32.of_Z 6).
Definition det2 : Detection := mkDetection 100 100 40 (F32.of_Z 9).

Definition cascade (params : PigoParams) (img : GoImage) : list Detection :=
  [det1; det2].

(** A network with a three-dimensional output. *)
Definition forward (size : Z * Z) (scale : spec_float)
    (mean : list spec_float) (swapRB crop : bool) (img : Mat)
  : list float32 :=
  match img with
  | Some r => [F32.of_Z (MinX r); F32.of_Z (MaxX r); F32.zero]
  | None => [F32.zero; F32.zero; F32.one]
  end.

Definition addFaceSample :=
  AddFaceSample Mat GoImage ToImage Region MatEmpty cascade forward.

Definition picture : Mat := None.

(** The embedding of the region of [det1] and of [det2]. *)
Definition feature1 : list float32 :=
  normalizeFeature [F32.of_Z 45; F32.of_Z 55; F32.zero].
Definition feature2 : list float32 :=
  normalizeFeature [F32.of_Z 80; F32.of_Z 120; F32.zero].

(** The memory after the sample was added to "001". *)
Definition h2 : Heap :=
  mkHeap {[ alice := mkPersonCell "001" "Alice"
                       [mkFeatureCell "001" (Some 1%positive)] ]}
         {[ 1%positive := feature1 ]}.

(** A registry with a second person, "002", who has one sample. *)
Definition bob : loc := 2%positive.
Definition fr12 : FaceRecognizer :=
  mkFaceRecognizer openFace {[ "001" := alice; "002" := bob ]}
    (F32.of_ratio 6 10) defaultParams.
Definition h12 : Heap :=
  mkHeap {[ alice := mkPersonCell "001" "Alice" [];
            bob := mkPersonCell "002" "Bob"
                     [mkFeatureCell "002" (Some 1%positive)] ]}
         {[ 1%positive := feature2 ]}.
Definition bobValue : Person :=
  mkPerson "002" "Bob" [mkFaceFeature "002" feature2].


(** A network whose output has a NaN in it. *)
Definition forwardNaN (size : Z * Z) (scale : spec_float)
    (mean : list spec_float) (swapRB crop : bool) (img : Mat)
  : list float32 :=
  [F32.one; S754_nan; F32.zero].

End OrchestratorExamples.

Module StorageExamples.
Import MatcherExamples.
Import RegistryExamples.
Import OrchestratorExamples.

Definition saveFile := FileStorage.SavePerson (H := RefEnv.env).
Definition loadFile := FileStorage.LoadPerson (H := RefEnv.env).
Definition loadAllFiles := FileStorage.LoadAllPersons (H := RefEnv.env).
Definition storedFile := FileStorage.stored (H := RefEnv.env).
Definition saveJSON := JSONStorage.SavePerson (H := RefEnv.env).

(** An empty directory [db], and [db] with two valid records and a
    corrupted one. *)
Definition db0 : RefEnv.FileSystem := {[ "db" := ∅ ]}.

Definition dbABC : RefEnv.FileSystem :=
  {[ "db" :=
       {[ "A.json" := RefEnv.PersonDoc personA;
          "B.json" := RefEnv.PersonDoc personB;
          "C.json" := RefEnv.Malformed "{ id: A, name" ]} ]}.

Definition listingABC : list FileInfo :=
  [mkFileInfo "A.json" false; mkFileInfo "B.json" false;
   mkFileInfo "C.json" false].

(** The person of [h2]: "001", "Alice", one embedding. *)
Definition aliceValue : Person :=
  mkPerson "001" "Alice" [mkFaceFeature "001" feature1].

Definition jsonStore0 : JSONStorage.t := JSONStorage.mk "db/faces.json" ∅.

(** A person whose embedding holds a NaN, as [normalizeFeature] returns
    for an encoder output with an infinite component. *)
Definition nanCell : PersonCell :=
  mkPersonCell "nan" "Nan" [mkFeatureCell "nan" (Some 1%positive)].
Definition hNaN : Heap :=
  mkHeap {[ 1%positive := nanCell ]}
         {[ 1%positive := [S754_nan; F32.zero] ]}.

(** A person whose name is the single byte FF. *)
Definition rawCell : PersonCell := mkPersonCell "raw" (String "255" "") [].
Definition hRaw : Heap := mkHeap {[ 1%positive := rawCell ]} ∅.

Definition nine : float32 := F32.of_Z 9.

(** A JSON store and a registry that hold the person with the NaN and,
    in memory next to it, "001" without samples. *)
Definition hNaNAlice : Heap :=
  mkHeap {[ 1%positive := nanCell;
            2%positive := mkPersonCell "001" "Alice" [] ]}
         {[ 1%positive := [S754_nan; F32.zero] ]}.
Definition jsonStoreNaN : JSONStorage.t :=
  JSONStorage.mk "db/faces.json" {[ "nan" := 1%positive ]}.
Definition jsonStoreNaNAlice : JSONStorage.t :=
  JSONStorage.mk "db/faces.json"
    {[ "nan" := 1%positive; "001" := 2%positive ]}.
Definition frNaN : FaceRecognizer :=
  mkFaceRecognizer openFace {[ "nan" := 1%positive ]} (F32.of_ratio 6 10)
    defaultParams.
Definition nanValue : Person :=
  mkPerson "nan" "Nan" [mkFaceFeature "nan" [S754_nan; F32.zero]].

Definition saveDatabase := SaveDatabase (H := RefEnv.env).
Definition deleteJSON := JSONStorage.DeletePerson (H := RefEnv.env).
Definition closeJSON := JSONStorage.Close (H := RefEnv.env).

(** A memory store with the two persons of [h12]. *)
Definition memoryStore12 : MemoryStorage.t :=
  {[ "001" := alice; "002" := bob ]}.

End StorageExamples.

Module ConcurrentExamples.
Import MatcherExamples.
Import RegistryExamples.
Import OrchestratorExamples.
Import StorageExamples.
Import Concurrent.

(** Persons "X" and "Y" without samples. *)
Definition registryXY : gmap string loc :=
  {[ "X" := 1%positive; "Y" := 2%positive ]}.

Definition heapXY : Heap :=
  mkHeap {[ 1%positive := mkPersonCell "X" "Xavier" [];
            2%positive := mkPersonCell "Y" "Yvonne" [] ]}
         {[ 1%positive := vec [1; 0; 0];
            2%positive := vec [0; 1; 0];
            3%positive := vec [0; 0; 1] ]}.


(** Two calls for "X" and one for "Y". *)
Definition callsXXY : list (string * FeatureCell) :=
  [ ("X", mkFeatureCell "X" (Some 1%positive));
    ("X", mkFeatureCell "X" (Some 2%positive));
    ("Y", mkFeatureCell "Y" (Some 3%positive)) ].

(** All three look the person up; goroutine 0 takes the mutex of "X". *)
Definition prefixXXY : list nat := [0; 1; 2; 0; 1; 2; 0; 1; 2; 0]%nat.


End ConcurrentExamples.

(** * Properties *)

(** ** Order facts on binary32 values

    [SFcompare] orders all non-NaN values; a comparison with NaN is
    false.  The three facts below are what the running maximum of the
    matcher needs. *)

Lemma ltb_trans (x y z : float32) :
  F32.ltb x y = true -> F32.ltb y z = true -> F32.ltb x z = true.
Proof. float_order. Qed.

Lemma leb_ltb_trans (x y z : float32) :
  F32.leb x y = true -> F32.ltb y z = true -> F32.leb x z = true.
Proof. float_order. Qed.

Lemma leb_not_gtb (x y : float32) :
  F32.leb x y = true -> F32.ltb y x = false.
Proof. float_order. Qed.

Lemma ltb_irrefl (x : float32) : F32.ltb x x = false.
Proof. float_order. Qed.

Lemma eqb_zero_inv (x : float32) :
  F32.eqb x F32.zero = true <-> F32.is_zero x = true.
Proof. unfold F32.zero, F32.is_zero. split; float_order. Qed.

(** ** The numeric utilities on degenerate inputs *)

Section Normalizer.

Implicit Types a b v : list float32.

(** With slices of equal length the two norm accumulators of
    [cosineSimilarity] are the sums of squares of its arguments. *)
Lemma cosineLoop_norms a : forall b dot na nb,
  length a = length b ->
  exists dot',
    cosineLoop a b dot na nb =
      (dot',
       fold_left (fun norm x => F32.add norm (F32.mul x x)) a na,
       fold_left (fun norm x => F32.add norm (F32.mul x x)) b nb).
Proof.
  induction a as [|x a IH]; intros [|y b] dot na nb Hlen;
    simpl in *; try discriminate; eauto.
Qed.

Lemma square_of_zero (x : float32) :
  F32.is_zero x = true -> F32.mul x x = F32.zero.
Proof. destruct x as [[]| | |]; simpl; try discriminate; reflexivity. Qed.

(** A vector all of whose components are [+0] or [-0] has the sum of
    squares [+0]. *)
Lemma sumSquares_zero_vector v :
  Forall (fun x => F32.is_zero x = true) v -> sumSquares v = F32.zero.
Proof.
  unfold sumSquares. induction 1 as [|x v Hx _ IH]; simpl; [reflexivity|].
  rewrite (square_of_zero x Hx). exact IH.
Qed.

Lemma sqrt_of_zero (x : float32) :
  F32.is_zero x = true -> F32.is_zero (F32.sqrt x) = true.
Proof. destruct x; simpl; try discriminate; reflexivity. Qed.

Lemma cosineSimilarity_length_mismatch a b :
  length a <> length b -> cosineSimilarity a b = F32.zero.
Proof.
  intros Hne. unfold cosineSimilarity.
  destruct (Nat.eqb_spec (length a) (length b)); [contradiction|reflexivity].
Qed.

Lemma cosineSimilarity_zero_norm a b :
  F32.eqb (sumSquares a) F32.zero = true \/
  F32.eqb (sumSquares b) F32.zero = true ->
  cosineSimilarity a b = F32.zero.
Proof.
  intros Hz. unfold cosineSimilarity.
  destruct (Nat.eqb_spec (length a) (length b)) as [Hlen|]; simpl;
    [|reflexivity].
  destruct (cosineLoop_norms a b F32.zero F32.zero F32.zero Hlen)
    as [dot' ->].
  fold (sumSquares a) (sumSquares b).
  destruct Hz as [-> | ->]; simpl; [reflexivity|].
  rewrite orb_true_r. reflexivity.
Qed.

Lemma normalizeFeature_zero_norm v :
  F32.eqb (sumSquares v) F32.zero = true -> normalizeFeature v = v.
Proof.
  intros Hz. unfold normalizeFeature.
  apply eqb_zero_inv, sqrt_of_zero, eqb_zero_inv in Hz.
  rewrite Hz. reflexivity.
Qed.

(** C8.  Degenerate inputs of the Embedding Normalizer:
    [cosineSimilarity] returns exactly [0] (the value [+0]) when the two
    slices differ in length, and when the squared norm the code
    accumulates for either argument compares equal to zero, which is
    the case for every vector whose components are all zero;
    [normalizeFeature] returns a vector of zero norm, in particular the
    zero vector, as it is, without dividing. *)
Theorem normalizer_degenerate_inputs a b :
  (length a <> length b -> cosineSimilarity a b = F32.zero) /\
  (F32.eqb (sumSquares a) F32.zero = true \/
   F32.eqb (sumSquares b) F32.zero = true ->
   cosineSimilarity a b = F32.zero) /\
  (Forall (fun x => F32.is_zero x = true) a \/
   Forall (fun x => F32.is_zero x = true) b ->
   cosineSimilarity a b = F32.zero) /\
  (F32.eqb (sumSquares a) F32.zero = true -> normalizeFeature a = a) /\
  (Forall (fun x => F32.is_zero x = true) a -> normalizeFeature a = a).
Proof.
  split; [apply cosineSimilarity_length_mismatch|].
  split; [apply cosineSimilarity_zero_norm|].
  split.
  - intros [Hz|Hz]; apply cosineSimilarity_zero_norm;
      [left|right]; rewrite (sumSquares_zero_vector _ Hz); reflexivity.
  - split.
    + apply normalizeFeature_zero_norm.
    + intros Hz. apply normalizeFeature_zero_norm.
      rewrite (sumSquares_zero_vector _ Hz). reflexivity.
Qed.

End Normalizer.

(** The cases of [TestCosineSimilarity] and [TestNormalizeFeature] that
    have an exact answer. *)
Example cosine_identical :
  cosineSimilarity [F32.of_Z 1; F32.of_Z 0; F32.of_Z 0]
                   [F32.of_Z 1; F32.of_Z 0; F32.of_Z 0] = F32.one.
Proof. vm_compute. reflexivity. Qed.

Example cosine_orthogonal :
  cosineSimilarity [F32.of_Z 1; F32.of_Z 0; F32.of_Z 0]
                   [F32.of_Z 0; F32.of_Z 1; F32.of_Z 0] = F32.zero.
Proof. vm_compute. reflexivity. Qed.

Example cosine_opposite :
  cosineSimilarity [F32.of_Z 1; F32.of_Z 0; F32.of_Z 0]
                   [F32.of_Z (-1); F32.of_Z 0; F32.of_Z 0] = F32.of_Z (-1).
Proof. vm_compute. reflexivity. Qed.

Example cosine_empty : cosineSimilarity [] [] = F32.zero.
Proof. vm_compute. reflexivity. Qed.

Example normalize_3_4 :
  normalizeFeature [F32.of_Z 3; F32.of_Z 4] =
    [F32.of_ratio 3 5; F32.of_ratio 4 5].
Proof. vm_compute. reflexivity. Qed.

(** A witness for C8: a length mismatch, a zero vector against a vector
    holding NaN, a vector whose squares underflow, and the zero vector
    with both signs of zero. *)
Lemma normalizer_degenerate_inputs_witness :
  cosineSimilarity [F32.of_Z 1; F32.of_Z 0]
                   [F32.of_Z 1; F32.of_Z 0; F32.of_Z 0] = F32.zero /\
  cosineSimilarity [F32.zero; S754_zero true] [S754_nan; F32.one]
    = F32.zero /\
  cosineSimilarity [S754_finite false 8388608 (-100)] [F32.one] = F32.zero /\
  normalizeFeature [S754_finite false 8388608 (-100)]
    = [S754_finite false 8388608 (-100)] /\
  normalizeFeature [F32.zero; S754_zero true; F32.zero]
    = [F32.zero; S754_zero true; F32.zero].
Proof.
  split.
  { destruct (normalizer_degenerate_inputs
                [F32.of_Z 1; F32.of_Z 0]
                [F32.of_Z 1; F32.of_Z 0; F32.of_Z 0]) as (H & _).
    apply H. cbn [length]. lia. }
  split.
  { destruct (normalizer_degenerate_inputs
                [F32.zero; S754_zero true] [S754_nan; F32.one])
      as (_ & _ & H & _).
    apply H. left. repeat constructor. }
  split.
  { destruct (normalizer_degenerate_inputs
                [S754_finite false 8388608 (-100)] [F32.one])
      as (_ & H & _).
    apply H. left. vm_compute. reflexivity. }
  split.
  { destruct (normalizer_degenerate_inputs
                [S754_finite false 8388608 (-100)] [])
      as (_ & _ & _ & H & _).
    apply H. vm_compute. reflexivity. }
  destruct (normalizer_degenerate_inputs
              [F32.zero; S754_zero true; F32.zero] [])
    as (_ & _ & _ & _ & H).
  apply H. repeat constructor.
Defined.

(** ** The matcher *)

Section Matcher.

Variable feature : list float32.

Abbreviation sim sample := (cosineSimilarity feature (Feature sample)).

(** *** The confidence never drops below zero *)

Lemma matchSample_nonneg person best sample :
  F32.leb F32.zero (bestConfidence best) = true ->
  F32.leb F32.zero (bestConfidence (matchSample feature person best sample))
    = true.
Proof.
  intros Hb. unfold matchSample.
  destruct (F32.ltb (bestConfidence best) (sim sample)) eqn:Hlt;
    [|exact Hb].
  simpl. eapply leb_ltb_trans; eassumption.
Qed.

Lemma matchOnePerson_nonneg person : forall best,
  F32.leb F32.zero (bestConfidence best) = true ->
  F32.leb F32.zero (bestConfidence (matchOnePerson feature best person))
    = true.
Proof.
  unfold matchOnePerson.
  induction (Features person) as [|s l IH]; intros best Hb; simpl;
    [exact Hb|].
  apply IH, matchSample_nonneg, Hb.
Qed.

Lemma matchLoop_nonneg persons : forall best,
  F32.leb F32.zero (bestConfidence best) = true ->
  F32.leb F32.zero
    (bestConfidence (fold_left (matchOnePerson feature) persons best))
    = true.
Proof.
  induction persons as [|p l IH]; intros best Hb; simpl; [exact Hb|].
  apply IH, matchOnePerson_nonneg, Hb.
Qed.

(** A sample of negative similarity never replaces a best whose
    confidence is at least zero. *)
Lemma matchSample_negative person best sample :
  F32.leb F32.zero (bestConfidence best) = true ->
  F32.ltb (sim sample) F32.zero = true ->
  matchSample feature person best sample = best.
Proof.
  intros Hb Hneg. unfold matchSample.
  destruct (F32.ltb (bestConfidence best) (sim sample)) eqn:Hlt;
    [|reflexivity].
  pose proof (ltb_trans _ _ _ Hlt Hneg) as Hbad.
  rewrite (leb_not_gtb _ _ Hb) in Hbad. discriminate.
Qed.

Lemma matchOnePerson_negative person best :
  F32.leb F32.zero (bestConfidence best) = true ->
  (forall sample, In sample (Features person) ->
                  F32.ltb (sim sample) F32.zero = true) ->
  matchOnePerson feature best person = best.
Proof.
  unfold matchOnePerson.
  induction (Features person) as [|s l IH]; intros Hb Hneg; simpl;
    [reflexivity|].
  rewrite matchSample_negative by (auto; apply Hneg; left; reflexivity).
  apply IH; [exact Hb|]. intros s' Hs'. apply Hneg. right. exact Hs'.
Qed.

Lemma matchLoop_app l1 l2 best :
  fold_left (matchOnePerson feature) (l1 ++ l2) best =
  fold_left (matchOnePerson feature) l2
    (fold_left (matchOnePerson feature) l1 best).
Proof. apply fold_left_app. Qed.

Lemma best0_nonneg : F32.leb F32.zero (bestConfidence best0) = true.
Proof. reflexivity. Qed.

Lemma matchPerson_all_negative persons :
  (forall person sample,
      In person persons -> In sample (Features person) ->
      F32.ltb (sim sample) F32.zero = true) ->
  matchPerson feature persons = best0.
Proof.
  unfold matchPerson. generalize best0_nonneg. generalize best0.
  induction persons as [|p l IH]; intros best Hb Hneg; simpl;
    [reflexivity|].
  rewrite matchOnePerson_negative; auto.
  - apply IH; auto. intros q s Hq. apply Hneg. right. exact Hq.
  - intros s. apply Hneg. left. reflexivity.
Qed.

(** The facts about the lower bound of the confidence, for one query. *)
Lemma matchPerson_lower_bound (persons : list Person) :
  F32.leb F32.zero (bestConfidence (matchPerson feature persons)) = true /\
  (forall threshold faceRect,
      F32.leb F32.zero
        (rConfidence (recognizeFace threshold persons feature faceRect))
      = true) /\
  (forall before person after,
      persons = before ++ person :: after ->
      (forall sample, In sample (Features person) ->
                      F32.ltb (sim sample) F32.zero = true) ->
      matchPerson feature persons = matchPerson feature (before ++ after)) /\
  ((forall person sample,
       In person persons -> In sample (Features person) ->
       F32.ltb (sim sample) F32.zero = true) ->
   matchPerson feature persons = mkBest "" "" F32.zero).
Proof.
  assert (Hnn : F32.leb F32.zero
                  (bestConfidence (matchPerson feature persons)) = true)
    by apply matchLoop_nonneg, best0_nonneg.
  split; [exact Hnn|]. split; [|split].
  - intros threshold faceRect. unfold recognizeFace.
    destruct (F32.leb threshold _); simpl; exact Hnn.
  - intros before person after -> Hneg. unfold matchPerson.
    rewrite !matchLoop_app. simpl.
    rewrite matchOnePerson_negative; auto.
    apply matchLoop_nonneg, best0_nonneg.
  - apply matchPerson_all_negative.
Qed.

(** *** The confidence is the running maximum, started at zero *)

Lemma matchSample_dominates person best sample seen :
  dominates best seen ->
  dominates (matchSample feature person best sample) (seen ++ [sim sample]).
Proof.
  intros Hd s Hs. unfold matchSample.
  destruct (F32.ltb (bestConfidence best) (sim sample)) eqn:Hlt; simpl.
  - apply in_app_or in Hs as [Hs|[<-|[]]]; [|apply ltb_irrefl].
    destruct (F32.ltb (sim sample) s) eqn:Hlt'; [|reflexivity].
    rewrite <- (Hd s Hs). symmetry. eapply ltb_trans; eassumption.
  - apply in_app_or in Hs as [Hs|[<-|[]]]; [apply Hd, Hs|exact Hlt].
Qed.

Lemma matchOnePerson_dominates person : forall best seen,
  dominates best seen ->
  dominates (matchOnePerson feature best person)
    (seen ++ map (fun sample => sim sample) (Features person)).
Proof.
  unfold matchOnePerson.
  induction (Features person) as [|s l IH]; intros best seen Hd; simpl.
  - rewrite app_nil_r. exact Hd.
  - replace (seen ++ sim s :: map (fun sample => sim sample) l)
      with ((seen ++ [sim s]) ++ map (fun sample => sim sample) l)
      by (rewrite <- app_assoc; reflexivity).
    apply IH, matchSample_dominates, Hd.
Qed.

Lemma matchLoop_dominates persons : forall best seen,
  dominates best seen ->
  dominates (fold_left (matchOnePerson feature) persons best)
    (seen ++ similarities feature persons).
Proof.
  induction persons as [|p l IH]; intros best seen Hd; simpl.
  - rewrite app_nil_r. exact Hd.
  - rewrite app_assoc. apply IH, matchOnePerson_dominates, Hd.
Qed.

Lemma matchSample_attained persons person best sample :
  In person persons -> In sample (Features person) ->
  F32.leb F32.zero (bestConfidence best) = true ->
  attained feature persons best ->
  attained feature persons (matchSample feature person best sample).
Proof.
  intros Hp Hs Hb Ha. unfold matchSample.
  destruct (F32.ltb (bestConfidence best) (sim sample)) eqn:Hlt;
    [|exact Ha].
  right. exists person, sample. simpl. repeat split; auto.
  destruct (F32.ltb F32.zero (sim sample)) eqn:Hpos; [reflexivity|].
  revert Hb Hlt Hpos. generalize (bestConfidence best) (sim sample).
  intros x y. float_order.
Qed.

Lemma matchOnePerson_attained persons person :
  In person persons ->
  forall best,
    F32.leb F32.zero (bestConfidence best) = true ->
    attained feature persons best ->
    attained feature persons (matchOnePerson feature best person).
Proof.
  intros Hp. unfold matchOnePerson.
  assert (Hin : forall s, In s (Features person) -> In s (Features person))
    by auto.
  revert Hin. generalize (Features person) at 1 3.
  induction l as [|s l IH]; intros Hin best Hb Ha; simpl; [exact Ha|].
  apply IH.
  - intros s' Hs'. apply Hin. right. exact Hs'.
  - apply matchSample_nonneg, Hb.
  - apply matchSample_attained; auto. apply Hin. left. reflexivity.
Qed.

Lemma matchLoop_attained persons : forall visited best,
  (forall p, In p visited -> In p persons) ->
  F32.leb F32.zero (bestConfidence best) = true ->
  attained feature persons best ->
  attained feature persons (fold_left (matchOnePerson feature) visited best).
Proof.
  induction visited as [|p l IH]; intros best Hin Hb Ha; simpl; [exact Ha|].
  apply IH.
  - intros q Hq. apply Hin. right. exact Hq.
  - apply matchOnePerson_nonneg, Hb.
  - apply matchOnePerson_attained; auto. apply Hin. left. reflexivity.
Qed.

(** C1, as the code has it.  The score of the matcher is the running
    maximum of the similarities of all stored samples of all persons,
    started at zero: no similarity exceeds it, and it is either the
    initial [0] with empty id and name, or the positive similarity of a
    stored sample of the person whose id and name are returned.  The
    result of [Recognize] for the face always carries that score and
    the face's box; it names the best person when the score is at
    least the threshold and "unknown"/"Unknown" otherwise.  On a
    registry without persons the score is [0], so the result is
    "unknown" unless the threshold is at most zero, in which case it
    carries the empty id and name. *)
Theorem recognizeFace_running_maximum
    (persons : list Person) (threshold : float32) (faceRect : Rectangle) :
  let best := matchPerson feature persons in
  let result := recognizeFace threshold persons feature faceRect in
  dominates best (similarities feature persons) /\
  attained feature persons best /\
  rConfidence result = bestConfidence best /\
  rBoundingBox result = faceRect /\
  (F32.leb threshold (bestConfidence best) = true ->
   rPersonID result = bestPersonID best /\
   rPersonName result = bestPersonName best) /\
  (F32.leb threshold (bestConfidence best) = false ->
   rPersonID result = "unknown" /\ rPersonName result = "Unknown") /\
  (persons = [] ->
   best = mkBest "" "" F32.zero /\
   result = if F32.leb threshold F32.zero
            then mkRecognizeResult "" "" F32.zero faceRect
            else mkRecognizeResult "unknown" "Unknown" F32.zero faceRect).
Proof.
  intros best result. subst best result. unfold recognizeFace.
  split.
  { apply (matchLoop_dominates persons best0 []). intros s []. }
  split.
  { apply matchLoop_attained; auto using best0_nonneg.
    left. reflexivity. }
  split; [destruct (F32.leb threshold _); reflexivity|].
  split; [destruct (F32.leb threshold _); reflexivity|].
  split; [intros ->; split; reflexivity|].
  split; [intros ->; split; reflexivity|].
  intros ->. split; reflexivity.
Qed.

End Matcher.

Import MatcherExamples.

(** The end-to-end scenario of the specification: identities "A" and
    "B", threshold [0.6]. *)
Example scenario_match_A :
  let r := recognizeFace threshold06 [personA; personB] query box in
  rPersonID r = "A" /\ rPersonName r = "Alice" /\
  F32.ltb threshold06 (rConfidence r) = true.
Proof. vm_compute. auto. Qed.

Example scenario_unknown :
  recognizeFace threshold06 [personA; personB] (vec [0; 0; 1]) box
  = mkRecognizeResult "unknown" "Unknown" F32.zero box.
Proof. vm_compute. reflexivity. Qed.

(** Counterexample to C1 as stated.  With the single stored sample
    [-1,0,0] and the query [1,0,0] the maximum similarity over the stored
    samples is [-1], yet the result carries the score [0]; and on the
    empty registry with threshold [0] the result carries the empty id,
    not "unknown". *)
Lemma recognizeFace_not_plain_maximum :
  similarities (vec [1; 0; 0]) [personN] = [F32.of_Z (-1)] /\
  rConfidence (recognizeFace threshold06 [personN] (vec [1; 0; 0]) box)
    = F32.zero /\
  F32.eqb F32.zero (F32.of_Z (-1)) = false /\
  recognizeFace F32.zero [] (vec [1; 0; 0]) box
    = mkRecognizeResult "" "" F32.zero box /\
  rPersonID (recognizeFace F32.zero [] (vec [1; 0; 0]) box) <> "unknown".
Proof. vm_compute. repeat split; congruence. Qed.

(** Witness for C1: both branches of the decision and the empty
    registry. *)
Lemma recognizeFace_running_maximum_witness :
  (rPersonID (recognizeFace threshold06 [personA; personB] query box) = "A" /\
   rPersonName (recognizeFace threshold06 [personA; personB] query box)
     = "Alice") /\
  (rPersonID (recognizeFace threshold06 [personN] (vec [1; 0; 0]) box)
     = "unknown" /\
   rPersonName (recognizeFace threshold06 [personN] (vec [1; 0; 0]) box)
     = "Unknown") /\
  recognizeFace threshold06 [] query box
    = mkRecognizeResult "unknown" "Unknown" F32.zero box.
Proof.
  split.
  { destruct (recognizeFace_running_maximum query [personA; personB]
                threshold06 box) as (_ & _ & _ & _ & H & _).
    destruct H as [H1 H2]; [vm_compute; reflexivity|].
    rewrite H1, H2. vm_compute. auto. }
  split.
  { destruct (recognizeFace_running_maximum (vec [1; 0; 0]) [personN]
                threshold06 box) as (_ & _ & _ & _ & _ & H & _).
    apply H. vm_compute. reflexivity. }
  destruct (recognizeFace_running_maximum query [] threshold06 box)
    as (_ & _ & _ & _ & _ & _ & H).
  destruct H as [_ H]; [reflexivity|]. rewrite H. vm_compute. reflexivity.
Defined.

(** ** Memory *)

Lemma newArray_spec (h : Heap) (v : list float32) :
  let '(a, h') := newArray h v in
  arrays h !! a = None /\
  arrays h' = <[a := v]> (arrays h) /\
  structs h' = structs h.
Proof.
  simpl. split; [|split; reflexivity].
  apply not_elem_of_dom, is_fresh.
Qed.

Lemma newStruct_spec (h : Heap) (c : PersonCell) :
  let '(p, h') := newStruct h c in
  structs h !! p = None /\
  structs h' = <[p := c]> (structs h) /\
  arrays h' = arrays h.
Proof.
  simpl. split; [|split; reflexivity].
  apply not_elem_of_dom, is_fresh.
Qed.





(** ** The registry hands out its own pointers *)


Import RegistryExamples.

Example modelConfigs_openface : modelConfigs !! ModelOpenFace = Some openFace.
Proof. vm_compute. reflexivity. Qed.

Example AddPerson_alice : AddPerson fr0 emptyHeap "001" "Alice" = Ok (fr1, h1).
Proof. vm_compute. reflexivity. Qed.

Example AddPerson_duplicate :
  AddPerson fr1 h1 "001" "Bob" = Err "person ID 001 already exists".
Proof. vm_compute. reflexivity. Qed.



(** ** Enrolling a sample and recognizing *)

(** The first rectangle [DetectFaces] returns belongs to the first
    detection, in cascade order, whose quality exceeds the threshold. *)
Lemma facesOf_head (params : PigoParams) (dets : list Detection)
    (face0 : Rectangle) (rest : list Rectangle) :
  facesOf params dets = face0 :: rest ->
  exists det,
    find (fun det => F32.ltb (QualityThreshold params) (Q det)) dets
      = Some det /\
    face0 = faceRectangle det.
Proof.
  induction dets as [|d l IH]; simpl; [discriminate|].
  destruct (F32.ltb (QualityThreshold params) (Q d)); simpl.
  - intros [= <- _]. eauto.
  - exact IH.
Qed.

Section OrchestratorFacts.

Context {Mat GoImage : Type}.
Variable ToImage : Mat -> option GoImage.
Variable Region : Mat -> Rectangle -> Mat.
Variable MatEmpty : Mat -> bool.
Variable cascade : PigoParams -> GoImage -> list Detection.
Variable forward :
  Z * Z -> spec_float -> list spec_float -> bool -> bool -> Mat ->
  list float32.

Abbreviation detectFaces := (DetectFaces GoImage cascade).
Abbreviation extractFeature := (ExtractFeature Mat MatEmpty forward).
Abbreviation addFaceSample :=
  (AddFaceSample Mat GoImage ToImage Region MatEmpty cascade forward).
Abbreviation recognize :=
  (Recognize Mat GoImage ToImage Region MatEmpty cascade forward).
Abbreviation encoded := (encoded Mat forward).

(** The success path of [AddFaceSample], step by step. *)
Lemma AddFaceSample_success fr h personID img person c goImg face0 rest :
  persons fr !! personID = Some person ->
  structs h !! person = Some c ->
  ToImage img = Some goImg ->
  detectFaces fr goImg = face0 :: rest ->
  MatEmpty (Region img face0) = false ->
  exists a,
    arrays h !! a = None /\
    addFaceSample fr h personID img =
      Ok (mkHeap
            (<[person := mkPersonCell (cID c) (cName c)
                           (cFeatures c ++ [mkFeatureCell personID (Some a)])]>
               (structs h))
            (<[a := encoded fr (Region img face0)]> (arrays h))).
Proof.
  intros Hid Hp Himg Hfaces Hne.
  exists (fresh (dom (arrays h))). split.
  { apply not_elem_of_dom, is_fresh. }
  unfold AddFaceSample, ExtractFeature.
  rewrite Hid, Himg, Hfaces, Hne. simpl. rewrite Hp.
  unfold setFeatures. simpl. f_equal. f_equal.
  apply map_eq. intros q. rewrite lookup_alter.
  destruct (decide (person = q)) as [<-|Hne'].
  - rewrite lookup_insert_eq, Hp. reflexivity.
  - rewrite lookup_insert_ne by exact Hne'. reflexivity.
Qed.

Lemma AddFaceSample_inversion fr h personID img h' :
  addFaceSample fr h personID img = Ok h' ->
  exists person c goImg face0 rest,
    persons fr !! personID = Some person /\
    structs h !! person = Some c /\
    ToImage img = Some goImg /\
    detectFaces fr goImg = face0 :: rest /\
    MatEmpty (Region img face0) = false.
Proof.
  unfold AddFaceSample, ExtractFeature.
  destruct (persons fr !! personID) as [person|] eqn:Hid; [|discriminate].
  destruct (ToImage img) as [goImg|] eqn:Himg; [|discriminate].
  destruct (DetectFaces GoImage cascade fr goImg) as [|face0 rest] eqn:Hf;
    [discriminate|].
  destruct (MatEmpty (Region img face0)) eqn:Hne; [discriminate|].
  simpl.
  destruct (structs h !! person) as [c|] eqn:Hp; [|discriminate].
  intros _. exists person, c, goImg, face0, rest. auto.
Qed.


(** C4, as the code has it.  [DetectFaces] returns rectangles without
    their scores, in cascade order, for the detections whose quality
    exceeds the threshold, and [AddFaceSample] uses the first of them:
    whenever [AddFaceSample] succeeds, the sample it appends is the
    encoding of the region of the first detection, in cascade order,
    whose quality exceeds the quality threshold. *)
Theorem AddFaceSample_encodes_first_face fr h personID img h' :
  addFaceSample fr h personID img = Ok h' ->
  exists person c goImg det a,
    persons fr !! personID = Some person /\
    structs h !! person = Some c /\
    ToImage img = Some goImg /\
    find (fun det => F32.ltb (QualityThreshold (pigoParams fr)) (Q det))
         (cascade (pigoParams fr) goImg) = Some det /\
    head (detectFaces fr goImg) = Some (faceRectangle det) /\
    structs h' !! person =
      Some (mkPersonCell (cID c) (cName c)
              (cFeatures c ++ [mkFeatureCell personID (Some a)])) /\
    arrays h' !! a = Some (encoded fr (Region img (faceRectangle det))).
Proof.
  intros Hadd.
  destruct (AddFaceSample_inversion _ _ _ _ _ Hadd)
    as (person & c & goImg & face0 & rest & Hid & Hp & Himg & Hf & Hne).
  destruct (AddFaceSample_success fr h personID img person c goImg face0
              rest Hid Hp Himg Hf Hne) as (a & _ & Hadd').
  rewrite Hadd in Hadd'. injection Hadd' as ->.
  destruct (facesOf_head _ _ _ _ Hf) as (det & Hfind & ->).
  exists person, c, goImg, det, a. simpl.
  rewrite !lookup_insert_eq. unfold DetectFaces in *. rewrite Hf. auto 10.
Qed.


(** Every result of [Recognize] has a confidence of at least zero. *)
Lemma recognizeFaces_nonneg fr seen img faces : forall i,
  Forall (fun r => F32.leb F32.zero (rConfidence r) = true)
    (recognizeFaces Mat Region MatEmpty forward fr seen img i faces).
Proof.
  induction faces as [|faceRect rest IH]; intros i; simpl; [constructor|].
  destruct (ExtractFeature Mat MatEmpty forward fr (Region img faceRect))
    as [feature| |]; auto.
  constructor; [|apply IH].
  unfold recognizeFace.
  destruct (F32.leb (threshold fr) _); simpl;
    apply matchLoop_nonneg, best0_nonneg.
Qed.

(** C10.  The confidence of [matchPerson] is at least zero, and so is
    the confidence of every result [Recognize] returns; a person all of
    whose stored samples have negative similarity to the query
    contributes nothing to the outcome (the matcher returns what it
    returns on the registry without that person), and when this holds
    of every person the matcher returns the empty id, the empty name
    and the confidence [0]. *)
Theorem matchPerson_confidence_nonneg
    (feature : list float32) (registry : list Person) :
  F32.leb F32.zero (bestConfidence (matchPerson feature registry)) = true /\
  (forall fr seen img results,
      recognize fr seen img = Ok results ->
      Forall (fun r => F32.leb F32.zero (rConfidence r) = true) results) /\
  (forall before person after,
      registry = before ++ person :: after ->
      (forall sample,
          In sample (Features person) ->
          F32.ltb (cosineSimilarity feature (Feature sample)) F32.zero
          = true) ->
      matchPerson feature registry = matchPerson feature (before ++ after)) /\
  ((forall person sample,
       In person registry -> In sample (Features person) ->
       F32.ltb (cosineSimilarity feature (Feature sample)) F32.zero = true) ->
   matchPerson feature registry = mkBest "" "" F32.zero).
Proof.
  destruct (matchPerson_lower_bound feature registry)
    as (H1 & _ & H3 & H4).
  split; [exact H1|]. split; [|split; assumption].
  intros fr seen img results. unfold Recognize.
  destruct (ToImage img); [|discriminate].
  intros [= <-]. apply recognizeFaces_nonneg.
Qed.

End OrchestratorFacts.

Import OrchestratorExamples.

Example faceRectangle_det1 : faceRectangle det1 = mkRectangle 45 45 55 55.
Proof. vm_compute. reflexivity. Qed.

Example faceRectangle_det2 : faceRectangle det2 = mkRectangle 80 80 120 120.
Proof. vm_compute. reflexivity. Qed.

Example AddFaceSample_absent :
  addFaceSample fr1 h1 "002" picture = Err "person ID 002 does not exist".
Proof. vm_compute. reflexivity. Qed.



(** Counterexample to C4 as stated: the cascade returns [det1] with
    quality 6 and area 100 before [det2] with quality 9 and area 1600;
    both pass the threshold 5.  The sample that is stored is the encoding
    of the region of [det1], not of the region of [det2]. *)
Lemma AddFaceSample_takes_first_not_best :
  DetectFaces GoImage cascade fr1 tt
    = [faceRectangle det1; faceRectangle det2] /\
  F32.ltb (Q det1) (Q det2) = true /\
  addFaceSample fr1 h1 "001" picture = Ok h2 /\
  deref h2 alice
    = Some (mkPerson "001" "Alice" [mkFaceFeature "001" feature1]) /\
  feature1 = encoded Mat forward fr1 (Region picture (faceRectangle det1)) /\
  feature2 = encoded Mat forward fr1 (Region picture (faceRectangle det2)) /\
  feature1 <> feature2.
Proof. vm_compute. repeat split; congruence. Qed.

Lemma AddFaceSample_encodes_first_face_witness :
  exists person c goImg det a,
    persons fr1 !! "001" = Some person /\
    structs h1 !! person = Some c /\
    ToImage picture = Some goImg /\
    find (fun det => F32.ltb (QualityThreshold (pigoParams fr1)) (Q det))
         (cascade (pigoParams fr1) goImg) = Some det /\
    head (DetectFaces GoImage cascade fr1 goImg) = Some (faceRectangle det) /\
    structs h2 !! person =
      Some (mkPersonCell (cID c) (cName c)
              (cFeatures c ++ [mkFeatureCell "001" (Some a)])) /\
    arrays h2 !! a
      = Some (encoded Mat forward fr1 (Region picture (faceRectangle det))).
Proof.
  apply (AddFaceSample_encodes_first_face
           ToImage Region MatEmpty cascade forward
           fr1 h1 "001" picture h2).
  vm_compute. reflexivity.
Defined.
(** Witness for C10: a registry whose only person has similarity [-1]. *)
Lemma matchPerson_confidence_nonneg_witness :
  matchPerson (vec [1; 0; 0]) [personA; personN]
  = matchPerson (vec [1; 0; 0]) ([personA] ++ []) /\
  matchPerson (vec [1; 0; 0]) [personN] = mkBest "" "" F32.zero.
Proof.
  split.
  - destruct (matchPerson_confidence_nonneg ToImage Region MatEmpty cascade
                forward (vec [1; 0; 0]) [personA; personN])
      as (_ & _ & H & _).
    apply (H [personA] personN []); [reflexivity|].
    intros sample [<-|[]]. vm_compute. reflexivity.
  - destruct (matchPerson_confidence_nonneg ToImage Region MatEmpty cascade
                forward (vec [1; 0; 0]) [personN]) as (_ & _ & _ & H).
    apply H. intros person sample [<-|[]] [<-|[]]. vm_compute. reflexivity.
Defined.



(** ** Values in memory *)

Lemma holds_deref (h : Heap) (l : loc) (p : Person) :
  holds h l p -> deref h l = Some p.
Proof.
  intros (c & Hl & Hid & Hname & Hfs). unfold deref. rewrite Hl. simpl.
  destruct p as [id name fs]. destruct c as [cid cname cells].
  simpl in *. subst. unfold readCell. simpl. do 2 f_equal. clear Hl.
  induction Hfs as [|cell f cells fs [Hpid Harr] _ IH]; simpl;
    [reflexivity|].
  f_equal; [|exact IH].
  destruct cell as [pid [a|]], f as [pid' v]; simpl in *; subst;
    unfold readFeature; simpl; [rewrite Harr|]; reflexivity.
Qed.

Lemma holdsFeature_extends (h h' : Heap) cell f :
  arrays h ⊆ arrays h' -> holdsFeature h cell f -> holdsFeature h' cell f.
Proof.
  intros Hsub [Hpid Harr]. split; [exact Hpid|].
  destruct (cFeature cell); [|exact Harr].
  eapply lookup_weaken; eassumption.
Qed.

Lemma holds_extends (h h' : Heap) (l : loc) (p : Person) :
  extends h h' -> holds h l p -> holds h' l p.
Proof.
  intros [Hs Ha] (c & Hl & Hid & Hname & Hfs).
  exists c. repeat split; auto.
  - eapply lookup_weaken; eassumption.
  - eapply Forall2_impl; [exact Hfs|].
    intros cell f. apply holdsFeature_extends, Ha.
Qed.

Lemma extends_refl (h : Heap) : extends h h.
Proof. split; reflexivity. Qed.

Lemma extends_trans (h1 h2 h3 : Heap) :
  extends h1 h2 -> extends h2 h3 -> extends h1 h3.
Proof. intros [? ?] [? ?]. split; etrans; eassumption. Qed.

Lemma newArray_extends (h : Heap) (v : list float32) :
  extends h (newArray h v).2.
Proof.
  split; simpl; [reflexivity|].
  apply insert_subseteq, not_elem_of_dom, is_fresh.
Qed.

Lemma newStruct_extends (h : Heap) (c : PersonCell) :
  extends h (newStruct h c).2.
Proof.
  split; simpl; [|reflexivity].
  apply insert_subseteq, not_elem_of_dom, is_fresh.
Qed.

Lemma allocFeatures_spec (fs : list FaceFeature) : forall h,
  extends h (allocFeatures h fs).2 /\
  structs (allocFeatures h fs).2 = structs h /\
  Forall2 (holdsFeature (allocFeatures h fs).2) (allocFeatures h fs).1 fs.
Proof.
  induction fs as [|f rest IH]; intros h; simpl.
  { split; [apply extends_refl|]. split; [reflexivity|constructor]. }
  pose proof (newArray_extends h (Feature f)) as Hext1.
  set (a := fresh (dom (arrays h))) in *.
  set (h1 := mkHeap (structs h) (<[a := Feature f]> (arrays h))) in *.
  destruct (IH h1) as (Hext2 & Hstructs & Hall).
  destruct (allocFeatures h1 rest) as [cells h2]. simpl in *.
  split; [eapply extends_trans; eassumption|].
  split; [exact Hstructs|].
  constructor; [|exact Hall].
  split; [reflexivity|]. simpl.
  destruct Hext2 as [_ Ha]. eapply lookup_weaken; [|exact Ha].
  subst h1. simpl. apply lookup_insert_eq.
Qed.

Lemma allocPerson_spec (h : Heap) (p : Person) :
  structs h !! (allocPerson h p).1 = None /\
  extends h (allocPerson h p).2 /\
  holds (allocPerson h p).2 (allocPerson h p).1 p.
Proof.
  unfold allocPerson.
  destruct (allocFeatures_spec (Features p) h) as (Hext & Hstructs & Hall).
  destruct (allocFeatures h (Features p)) as [cells h1]. simpl in *.
  split; [|split].
  - rewrite <- Hstructs. apply not_elem_of_dom, is_fresh.
  - eapply extends_trans; [exact Hext|].
    apply (newStruct_extends h1 (mkPersonCell (ID p) (Name p) cells)).
  - eexists. split; [apply lookup_insert_eq|]. simpl. auto.
Qed.

(** ** File names *)

Lemma list_ascii_of_string_app (s1 s2 : string) :
  list_ascii_of_string (s1 ++ s2)
  = list_ascii_of_string s1 ++ list_ascii_of_string s2.
Proof. induction s1 as [|c s1 IH]; simpl; [|rewrite IH]; reflexivity. Qed.

Lemma string_length_list (s : string) :
  String.length s = length (list_ascii_of_string s).
Proof. induction s as [|c s IH]; simpl; [|rewrite IH]; reflexivity. Qed.

Lemma Ext_json (id : string) : Ext (id ++ ".json") = ".json".
Proof.
  unfold Ext. rewrite list_ascii_of_string_app, rev_app_distr. reflexivity.
Qed.

Lemma sliceTo_json (id : string) :
  sliceTo (id ++ ".json") (String.length (id ++ ".json") - 5) = id.
Proof.
  unfold sliceTo.
  rewrite string_length_list, list_ascii_of_string_app, length_app.
  simpl length.
  replace (length (list_ascii_of_string id) + 5 - 5)%nat
    with (length (list_ascii_of_string id)) by lia.
  rewrite take_app_length. apply string_of_list_ascii_of_string.
Qed.

(** ** The file backend *)

Section FileStorageFacts.

Context `{Env}.
Variable baseDir : string.

Lemma LoadPerson_stored h fs id p :
  FileStorage.stored baseDir fs id = Some p ->
  FileStorage.LoadPerson baseDir h fs id
  = ((allocPerson h p).2, Ok (allocPerson h p).1).
Proof.
  unfold FileStorage.stored, FileStorage.LoadPerson.
  destruct (ReadFile fs _) as [data| |]; try discriminate.
  destruct (Unmarshal data) as [q| |]; try discriminate.
  intros [= ->]. destruct (allocPerson h p). reflexivity.
Qed.

Lemma LoadPerson_not_stored h fs id :
  FileStorage.stored baseDir fs id = None ->
  exists r, FileStorage.LoadPerson baseDir h fs id = (h, r) /\
            is_Ok r = false.
Proof.
  unfold FileStorage.stored, FileStorage.LoadPerson.
  destruct (ReadFile fs _) as [data| |]; eauto.
  destruct (Unmarshal data) as [q| |]; try discriminate; eauto.
Qed.

Abbreviation healthy := (FileStorage.healthy baseDir).

Lemma loadAll_spec fs files : forall h acc,
  let '(h', loaded) := FileStorage.loadAll baseDir h fs files acc in
  extends h h' /\
  exists new,
    loaded = acc ++ new /\
    (forall file p, In file files -> healthy fs file p ->
                    exists l, In l new /\ holds h' l p) /\
    (forall l, In l new ->
               exists file p, In file files /\ healthy fs file p /\
                              holds h' l p).
Proof.
  induction files as [|file rest IH]; intros h acc; simpl.
  { split; [apply extends_refl|]. exists []. rewrite app_nil_r.
    split; [reflexivity|]. split; [intros ? ? []|intros ? []]. }
  destruct (fiIsDir file || negb (String.eqb (Ext (fiName file)) ".json"))
    eqn:Hskip.
  - specialize (IH h acc).
    destruct (FileStorage.loadAll baseDir h fs rest acc) as [h' loaded].
    destruct IH as (Hext & new & -> & Hin & Hout).
    split; [exact Hext|]. exists new. split; [reflexivity|]. split.
    + intros f p [<-|Hf] Hh; [|eauto].
      destruct Hh as (Hd & He & _). rewrite Hd, He in Hskip. discriminate.
    + intros l Hl. destruct (Hout l Hl) as (f & p & Hf & Hh & Hp).
      exists f, p. auto.
  - apply orb_false_elim in Hskip as [Hd He].
    apply negb_false_iff, String.eqb_eq in He.
    set (id := sliceTo (fiName file) (String.length (fiName file) - 5)).
    destruct (FileStorage.stored baseDir fs id) as [p|] eqn:Hst.
    + rewrite (LoadPerson_stored h fs id p Hst).
      destruct (allocPerson_spec h p) as (_ & Hext1 & Hholds).
      destruct (allocPerson h p) as [l h1]. simpl in *.
      specialize (IH h1 (acc ++ [l])).
      destruct (FileStorage.loadAll baseDir h1 fs rest (acc ++ [l]))
        as [h' loaded].
      destruct IH as (Hext & new & -> & Hin & Hout).
      split; [eapply extends_trans; eassumption|].
      exists (l :: new). split; [rewrite <- app_assoc; reflexivity|].
      split.
      * intros f q [<-|Hf] Hh.
        -- destruct Hh as (_ & _ & Hq). fold id in Hq.
           rewrite Hst in Hq. injection Hq as <-.
           exists l. split; [left; reflexivity|].
           eapply holds_extends; eassumption.
        -- destruct (Hin f q Hf Hh) as (l' & Hl' & Hq).
           exists l'. split; [right; exact Hl'|exact Hq].
      * intros l' [<-|Hl'].
        -- exists file, p. split; [left; reflexivity|].
           split; [repeat split; assumption|].
           eapply holds_extends; eassumption.
        -- destruct (Hout l' Hl') as (f & q & Hf & Hh & Hq).
           exists f, q. auto.
    + destruct (LoadPerson_not_stored h fs id Hst) as (r & -> & Hr).
      assert (Hsame :
                match r with
                | Ok person =>
                    FileStorage.loadAll baseDir h fs rest (acc ++ [person])
                | _ => FileStorage.loadAll baseDir h fs rest acc
                end = FileStorage.loadAll baseDir h fs rest acc)
        by (destruct r; [discriminate| |]; reflexivity).
      rewrite Hsame. clear Hsame.
      specialize (IH h acc).
      destruct (FileStorage.loadAll baseDir h fs rest acc) as [h' loaded].
      destruct IH as (Hext & new & -> & Hin & Hout).
      split; [exact Hext|]. exists new. split; [reflexivity|]. split.
      * intros f q [<-|Hf] Hh; [|eauto].
        destruct Hh as (_ & _ & Hq). fold id in Hq.
        rewrite Hst in Hq. discriminate.
      * intros l Hl. destruct (Hout l Hl) as (f & q & Hf & Hh & Hq).
        exists f, q. auto.
Qed.

(** C7.  [LoadAllPersons] of the file backend succeeds whenever the
    base directory can be listed.  Every file [id.json] of the listing
    whose content reads and decodes to a person is represented in the
    result by a pointer to that person, and every pointer of the result
    comes from such a file: entries that are directories, that are not
    named [*.json], or whose file cannot be read or decoded are left
    out without an error.  So with valid files for "A" and "B" and a
    corrupted file for "C" the call succeeds and returns "A" and "B". *)
Theorem FileStorage_LoadAllPersons_skips_corrupted
    (h : Heap) (fs : FS) (files : list FileInfo) :
  ReadDir fs baseDir = Ok files ->
  exists h' loaded,
    FileStorage.LoadAllPersons baseDir h fs = (h', Ok loaded) /\
    (forall id p,
        In (mkFileInfo (id ++ ".json") false) files ->
        FileStorage.stored baseDir fs id = Some p ->
        exists l, In l loaded /\ deref h' l = Some p) /\
    (forall l,
        In l loaded ->
        exists file p,
          In file files /\ healthy fs file p /\ deref h' l = Some p).
Proof.
  intros Hdir. unfold FileStorage.LoadAllPersons. rewrite Hdir.
  pose proof (loadAll_spec fs files h []) as Hspec.
  destruct (FileStorage.loadAll baseDir h fs files []) as [h' loaded].
  destruct Hspec as (_ & new & -> & Hin & Hout). simpl.
  exists h', new. split; [reflexivity|]. split.
  - intros id p Hfile Hst.
    destruct (Hin (mkFileInfo (id ++ ".json") false) p Hfile)
      as (l & Hl & Hp).
    { unfold FileStorage.healthy. simpl.
      rewrite Ext_json, sliceTo_json. auto. }
    exists l. split; [exact Hl|]. apply holds_deref, Hp.
  - intros l Hl. destruct (Hout l Hl) as (file & p & Hf & Hh & Hp).
    exists file, p.
    split; [exact Hf|]. split; [exact Hh|]. apply holds_deref, Hp.
Qed.

End FileStorageFacts.

(** ** Save followed by load *)

Lemma readCell_arrays (h h' : Heap) (c : PersonCell) :
  arrays h = arrays h' -> readCell h c = readCell h' c.
Proof.
  intros Ha. unfold readCell. f_equal. apply map_ext. intros cell.
  unfold readFeature, readSlice. rewrite Ha. reflexivity.
Qed.

Lemma MemoryStorage_save_load (s : gmap string loc) (h : Heap)
    (person : loc) (c : PersonCell) :
  structs h !! person = Some c ->
  exists q h1,
    MemoryStorage.SavePerson s h person = (<[cID c := q]> s, h1, Ok tt) /\
    structs h !! q = None /\
    forall h2, extends h1 h2 -> arrays h2 = arrays h ->
      exists q' h3,
        MemoryStorage.LoadPerson (<[cID c := q]> s) h2 (cID c)
          = (h3, Ok q') /\
        structs h2 !! q' = None /\
        deref h3 q' = deref h person.
Proof.
  intros Hp. unfold MemoryStorage.SavePerson. rewrite Hp.
  unfold copyPerson, newStruct.
  set (q := fresh (dom (structs h))).
  exists q, (mkHeap (<[q := mkPersonCell (cID c) (cName c) (cFeatures c)]>
                       (structs h)) (arrays h)).
  split; [reflexivity|]. split; [apply not_elem_of_dom, is_fresh|].
  intros h2 [Hs _] Ha. simpl in Hs.
  unfold MemoryStorage.LoadPerson. rewrite lookup_insert_eq.
  rewrite (lookup_weaken _ _ q _ (lookup_insert_eq _ _ _) Hs).
  unfold copyPerson, newStruct. simpl.
  eexists _, _. split; [reflexivity|].
  split; [apply not_elem_of_dom, is_fresh|].
  unfold deref. simpl. rewrite lookup_insert_eq, Hp. simpl. f_equal.
  destruct c as [id name cells]. simpl.
  apply readCell_arrays. simpl. exact Ha.
Qed.

Section StorageFacts.

Context `{Env}.

Lemma JSONStorage_save_load (s : JSONStorage.t) (h : Heap) (fs : FS)
    (person : loc) (c : PersonCell) :
  structs h !! person = Some c ->
  let s' := JSONStorage.mk (JSONStorage.filepath s)
              (<[cID c := person]> (JSONStorage.persons s)) in
  exists fs' r,
    JSONStorage.SavePerson s h fs person = (s', fs', r) /\
    JSONStorage.LoadPerson s' (cID c) = Ok person /\
    (r = Ok tt <->
     exists data,
       MarshalIndentMap (deref h <$> JSONStorage.persons s') = Ok data /\
       WriteFile fs (JSONStorage.filepath s) data = (fs', None)).
Proof.
  intros Hp s'. unfold JSONStorage.SavePerson, JSONStorage.save.
  rewrite Hp. fold s'. simpl.
  assert (Hload : JSONStorage.LoadPerson s' (cID c) = Ok person).
  { unfold JSONStorage.LoadPerson. simpl. rewrite lookup_insert_eq.
    reflexivity. }
  destruct (MarshalIndentMap _) as [data|msg|] eqn:Hm.
  - destruct (WriteFile fs (JSONStorage.filepath s) data) as [fs' [msg|]]
      eqn:Hw.
    + exists fs', (Err msg). split; [reflexivity|]. split; [exact Hload|].
      split; [discriminate|]. intros (d & [= <-] & Hw'). congruence.
    + exists fs', (Ok tt). split; [reflexivity|]. split; [exact Hload|].
      split; [|reflexivity]. intros _. exists data. auto.
  - exists fs, (Err msg). split; [reflexivity|]. split; [exact Hload|].
    split; [discriminate|]. intros (d & Hd & _). discriminate.
  - exists fs, Panic. split; [reflexivity|]. split; [exact Hload|].
    split; [discriminate|]. intros (d & Hd & _). discriminate.
Qed.

Lemma FileStorage_save_ok (baseDir : string) (h : Heap) (fs : FS)
    (person : loc) (p : Person) :
  deref h person = Some p ->
  forall fs',
    FileStorage.SavePerson baseDir h fs person = (fs', Ok tt) <->
    exists data,
      MarshalIndent p = Ok data /\
      WriteFile fs (FileStorage.getPersonPath baseDir (ID p)) data
        = (fs', None).
Proof.
  intros Hp fs'. unfold FileStorage.SavePerson. rewrite Hp.
  destruct (MarshalIndent p) as [data|msg|] eqn:Hm.
  - destruct (WriteFile fs _ data) as [fs1 [msg|]] eqn:Hw; split.
    + discriminate.
    + intros (d & [= <-] & Hw'). congruence.
    + intros [= <-]. eauto.
    + intros (d & [= <-] & Hw'). congruence.
  - split; [discriminate|]. intros (d & Hd & _). discriminate.
  - split; [discriminate|]. intros (d & Hd & _). discriminate.
Qed.

Lemma FileStorage_load_written (baseDir : string) (fs : FS) (p : Person)
    (data : Data) :
  ReadFile fs (FileStorage.getPersonPath baseDir (ID p)) = ReadOk data ->
  Unmarshal data = Ok p ->
  forall h, exists h' q,
    FileStorage.LoadPerson baseDir h fs (ID p) = (h', Ok q) /\
    structs h !! q = None /\
    deref h' q = Some p.
Proof.
  intros Hr Hu h. unfold FileStorage.LoadPerson. rewrite Hr, Hu.
  destruct (allocPerson_spec h p) as (Hfresh & _ & Hholds).
  destruct (allocPerson h p) as [q h']. simpl in *.
  exists h', q. split; [reflexivity|]. split; [exact Hfresh|].
  apply holds_deref, Hholds.
Qed.

(** C6, as the code has it.  For a person [p] read through the pointer
    that is saved:
    - [MemoryStorage.SavePerson] always succeeds, replaces the entry of
      the person's id and leaves the other entries alone, and the
      following [LoadPerson] of the id returns a person equal to [p];
    - [JSONStorage.SavePerson] puts the pointer under the person's id,
      and the following [LoadPerson] returns that pointer, whether or
      not the save reported an error; the save succeeds exactly when
      the whole map can be encoded and the file can be written;
    - [FileStorage.SavePerson] succeeds exactly when the person can be
      encoded and the file named after its id can be written; then,
      when a written file reads back as written and the encoding
      decodes to [p], the following [LoadPerson] of the id returns a
      person equal to [p]. *)
Theorem SavePerson_then_LoadPerson
    (h : Heap) (person : loc) (c : PersonCell) (p : Person) :
  structs h !! person = Some c ->
  deref h person = Some p ->
  (forall s : gmap string loc,
      exists q h1,
        MemoryStorage.SavePerson s h person = (<[cID c := q]> s, h1, Ok tt) /\
        exists q' h2,
          MemoryStorage.LoadPerson (<[cID c := q]> s) h1 (ID p)
            = (h2, Ok q') /\
          deref h2 q' = Some p) /\
  (forall (s : JSONStorage.t) (fs : FS),
      let s' := JSONStorage.mk (JSONStorage.filepath s)
                  (<[cID c := person]> (JSONStorage.persons s)) in
      exists fs' r,
        JSONStorage.SavePerson s h fs person = (s', fs', r) /\
        JSONStorage.LoadPerson s' (ID p) = Ok person /\
        (r = Ok tt <->
         exists data,
           MarshalIndentMap (deref h <$> JSONStorage.persons s') = Ok data /\
           WriteFile fs (JSONStorage.filepath s) data = (fs', None))) /\
  (forall (baseDir : string) (fs fs' : FS),
      (FileStorage.SavePerson baseDir h fs person = (fs', Ok tt) <->
       exists data,
         MarshalIndent p = Ok data /\
         WriteFile fs (FileStorage.getPersonPath baseDir (ID p)) data
           = (fs', None)) /\
      forall data,
        read_after_write ->
        MarshalIndent p = Ok data ->
        WriteFile fs (FileStorage.getPersonPath baseDir (ID p)) data
          = (fs', None) ->
        Unmarshal data = Ok p ->
        FileStorage.SavePerson baseDir h fs person = (fs', Ok tt) /\
        forall h0, exists h' q,
          FileStorage.LoadPerson baseDir h0 fs' (ID p) = (h', Ok q) /\
          deref h' q = Some p).
Proof.
  intros Hc Hp.
  assert (Hid : ID p = cID c).
  { unfold deref in Hp. rewrite Hc in Hp. injection Hp as <-. reflexivity. }
  rewrite Hid. split; [|split].
  - intros s.
    destruct (MemoryStorage_save_load s h person c Hc)
      as (q & h1 & Hsave & _ & Hload).
    exists q, h1. split; [exact Hsave|].
    destruct (Hload h1) as (q' & h2 & Hl & _ & Hd).
    + apply extends_refl.
    + unfold MemoryStorage.SavePerson in Hsave. rewrite Hc in Hsave.
      injection Hsave as _ <-. reflexivity.
    + exists q', h2. split; [exact Hl|]. rewrite Hd. exact Hp.
  - intros s fs. apply JSONStorage_save_load, Hc.
  - intros baseDir fs fs'. rewrite <- Hid.
    split; [apply FileStorage_save_ok, Hp|].
    intros data Hlaw Hm Hw Hu. split.
    + apply (FileStorage_save_ok baseDir h fs person p Hp). eauto.
    + intros h0.
      destruct (FileStorage_load_written baseDir fs' p data
                  (Hlaw _ _ _ _ Hw) Hu h0) as (h' & q & Hl & _ & Hd).
      eauto.
Qed.

End StorageFacts.

(** ** The backends on the reference environment *)

Lemma RefEnv_read_after_write : read_after_write (H := RefEnv.env).
Proof.
  unfold read_after_write. simpl. intros fs path data fs'.
  unfold RefEnv.writeFile, RefEnv.readFile.
  destruct (RefEnv.splitPath path) as [dir name].
  destruct (fs !! dir) as [d|] eqn:Hd; intros Hw; [|discriminate Hw].
  injection Hw as <-. rewrite lookup_insert_eq. simpl.
  rewrite lookup_insert_eq. reflexivity.
Qed.

Example toValidUTF8_ascii : RefEnv.toValidUTF8 "Alice" = "Alice".
Proof. vm_compute. reflexivity. Qed.

(** The two bytes C3 A9 are a valid sequence; the byte FF is not, and
    neither is a lone continuation byte. *)
Example toValidUTF8_valid :
  RefEnv.toValidUTF8 (String "195" (String "169" "")) =
    String "195" (String "169" "").
Proof. vm_compute. reflexivity. Qed.

Example toValidUTF8_invalid :
  RefEnv.toValidUTF8 (String "255" (String "169" "a")) =
    String "239" (String "191" (String "189"
      (String "239" (String "191" (String "189" "a"))))).
Proof. vm_compute. reflexivity. Qed.

Import StorageExamples.

Example normalize_infinite :
  normalizeFeature [S754_infinity false; F32.zero] = [S754_nan; F32.zero].
Proof. vm_compute. reflexivity. Qed.

Example readDir_ABC : RefEnv.readDir dbABC "db" = Ok listingABC.
Proof. vm_compute. reflexivity. Qed.

Example saveFile_alice :
  saveFile "db" h2 db0 alice
  = ({[ "db" := {[ "001.json" := RefEnv.PersonDoc aliceValue ]} ]}, Ok tt).
Proof. vm_compute. reflexivity. Qed.

Example loadFile_missing :
  loadFile "db" emptyHeap db0 "001"
  = (emptyHeap, Err "person not found: 001").
Proof. vm_compute. reflexivity. Qed.

(** Witness for C7: valid files for "A" and "B", a corrupted file for
    "C". *)
Lemma FileStorage_LoadAllPersons_skips_corrupted_witness :
  exists h' loaded,
    loadAllFiles "db" emptyHeap dbABC = (h', Ok loaded) /\
    (exists l, In l loaded /\ deref h' l = Some personA) /\
    (exists l, In l loaded /\ deref h' l = Some personB) /\
    storedFile "db" dbABC "C" = None /\
    length loaded = 2%nat.
Proof.
  destruct (FileStorage_LoadAllPersons_skips_corrupted (H := RefEnv.env)
              "db" emptyHeap dbABC listingABC)
    as (h' & loaded & Hall & Hin & _); [vm_compute; reflexivity|].
  exists h', loaded. split; [exact Hall|].
  split; [apply (Hin "A"); vm_compute; auto|].
  split; [apply (Hin "B"); vm_compute; auto|].
  split; [vm_compute; reflexivity|].
  unfold loadAllFiles in *. vm_compute in Hall.
  injection Hall as _ <-. reflexivity.
Defined.

(** Witness for C6: the person of [h2] saved to each backend. *)
Lemma SavePerson_then_LoadPerson_witness :
  (exists q h1 q' h3,
      MemoryStorage.SavePerson ∅ h2 alice = ({[ "001" := q ]}, h1, Ok tt) /\
      MemoryStorage.LoadPerson {[ "001" := q ]} h1 "001" = (h3, Ok q') /\
      deref h3 q' = Some aliceValue) /\
  JSONStorage.LoadPerson
    (JSONStorage.mk "db/faces.json" {[ "001" := alice ]}) "001" = Ok alice /\
  saveFile "db" h2 db0 alice
    = ({[ "db" := {[ "001.json" := RefEnv.PersonDoc aliceValue ]} ]}, Ok tt) /\
  exists h' q,
    loadFile "db" h2
      {[ "db" := {[ "001.json" := RefEnv.PersonDoc aliceValue ]} ]} "001"
      = (h', Ok q) /\
    deref h' q = Some aliceValue.
Proof.
  destruct (SavePerson_then_LoadPerson (H := RefEnv.env) h2 alice
              (mkPersonCell "001" "Alice"
                 [mkFeatureCell "001" (Some 1%positive)])
              aliceValue)
    as (Hmem & Hjson & Hfile); [reflexivity|vm_compute; reflexivity|].
  split.
  { destruct (Hmem ∅) as (q & h1 & Hsave & q' & h3 & Hload & Hd).
    exists q, h1, q', h3. auto. }
  split.
  { destruct (Hjson jsonStore0 db0) as (fs' & r & _ & Hload & _).
    exact Hload. }
  destruct (Hfile "db" db0
              {[ "db" := {[ "001.json" := RefEnv.PersonDoc aliceValue ]} ]})
    as (_ & Hround).
  destruct (Hround (RefEnv.PersonDoc aliceValue))
    as (Hsave & Hload);
    [exact RefEnv_read_after_write|vm_compute; reflexivity..|].
  split; [exact Hsave|]. destruct (Hload h2) as (h' & q & Hl & Hd).
  exists h', q. auto.
Defined.

(** Counterexample to C6 as stated.  A person whose embedding holds a NaN
    cannot be encoded: [SavePerson] of the file backend returns an error
    and writes nothing, so the following [LoadPerson] finds no person, and
    [SavePerson] of the aggregate backend returns an error as well.  A
    person whose name is not valid UTF-8 is saved by the file backend
    without an error, but is loaded with another name. *)
Lemma SavePerson_can_fail :
  deref hNaN 1%positive
    = Some (mkPerson "nan" "Nan" [mkFaceFeature "nan" [S754_nan; F32.zero]]) /\
  saveFile "db" hNaN db0 1%positive
    = (db0, Err "failed to marshal person: json: unsupported value: NaN") /\
  loadFile "db" hNaN db0 "nan" = (hNaN, Err "person not found: nan") /\
  (saveJSON jsonStore0 hNaN db0 1%positive).2
    = Err "json: unsupported value: NaN" /\
  (exists fs',
      saveFile "db" hRaw db0 1%positive = (fs', Ok tt) /\
      exists h' q,
        loadFile "db" hRaw fs' "raw" = (h', Ok q) /\
        deref h' q
          = Some (mkPerson "raw"
                    (String "239" (String "191" (String "189" ""))) []) /\
        deref h' q <> deref hRaw 1%positive).
Proof.
  split; [vm_compute; reflexivity|].
  split; [vm_compute; reflexivity|].
  split; [vm_compute; reflexivity|].
  split; [vm_compute; reflexivity|].
  eexists. split; [vm_compute; reflexivity|].
  eexists _, _. split; [vm_compute; reflexivity|].
  split; [vm_compute; reflexivity|]. vm_compute. congruence.
Qed.

(** C5, at the failing inputs.  [JSONStorage.SavePerson] keeps the
    caller's pointer and [LoadPerson] and [LoadAllPersons] return it: a
    name assigned through the loaded pointer is the name the next load
    shows.  [MemoryStorage] copies the struct and its [Features] slice,
    so the loaded pointer is new, but the copied [FaceFeature] values
    still point to the same arrays: a component assigned through the
    loaded person is the component the next load shows. *)
Theorem loaded_persons_share_memory :
  (let '(s1, _, r) := saveJSON jsonStore0 h2 db0 alice in
   r = Ok tt /\
   JSONStorage.LoadPerson s1 "001" = Ok alice /\
   JSONStorage.LoadAllPersons (map_to_list (JSONStorage.persons s1))
     = [alice] /\
   deref h2 alice = Some aliceValue /\
   let h3 := setName h2 alice "Mallory" in
   JSONStorage.LoadPerson s1 "001" = Ok alice /\
   deref h3 alice
     = Some (mkPerson "001" "Mallory" [mkFaceFeature "001" feature1])) /\
  (let '(s1, h3, r) := MemoryStorage.SavePerson ∅ h2 alice in
   r = Ok tt /\
   let '(h4, loaded) := MemoryStorage.LoadPerson s1 h3 "001" in
   loaded = Ok 3%positive /\
   s1 !! "001" = Some 2%positive /\
   deref h4 3%positive = Some aliceValue /\
   structs h4 !! 3%positive
     = Some (mkPersonCell "001" "Alice"
               [mkFeatureCell "001" (Some 1%positive)]) /\
   let h5 := setElem h4 1%positive 0 nine in
   let '(h6, again) := MemoryStorage.LoadPerson s1 h5 "001" in
   again = Ok 4%positive /\
   deref h6 4%positive
     = Some (mkPerson "001" "Alice"
               [mkFaceFeature "001" (<[0%nat := nine]> feature1)]) /\
   deref h6 4%positive <> Some aliceValue).
Proof.
  split.
  - vm_compute. repeat split; reflexivity.
  - vm_compute. repeat split; try reflexivity. congruence.
Qed.

(** ** Concurrent calls of [AddFaceSample] *)

Import Concurrent.

Lemma filter_insert_count {A} (P : A -> bool) (l : list A) : forall i x y,
  l !! i = Some x ->
  (length (List.filter P (<[i := y]> l)) + Nat.b2n (P x)
   = length (List.filter P l) + Nat.b2n (P y))%nat.
Proof.
  induction l as [|a l IH]; intros [|i] x y Hl; simpl in *; try discriminate.
  - injection Hl as ->. destruct (P x), (P y); simpl; lia.
  - specialize (IH i x y Hl). destruct (P a); simpl; lia.
Qed.




Section Interleavings.

Variable h : Heap.
Variable registry : gmap string loc.
Variable calls : list (string * FeatureCell).

(** Every registered person is a struct in memory. *)
Hypothesis allocated :
  forall id person, registry !! id = Some person ->
                    is_Some (structs h !! person).

Abbreviation inv := (invariant h registry calls).

Lemma moveTo_lookup w i t next j :
  wThreads w !! i = Some t ->
  moveTo w i t next !! j
  = if decide (i = j) then Some (mkGoroutine (gPersonID t) (gSample t) next)
    else wThreads w !! j.
Proof.
  intros Hi. unfold moveTo. destruct (decide (i = j)) as [<-|Hne].
  - apply list_lookup_insert_eq. eapply lookup_lt_Some, Hi.
  - apply list_lookup_insert_ne, Hne.
Qed.

Lemma moveTo_calls w i t next :
  wThreads w !! i = Some t ->
  map (fun t => (gPersonID t, gSample t)) (moveTo w i t next)
  = map (fun t => (gPersonID t, gSample t)) (wThreads w).
Proof.
  intros Hi. unfold moveTo.
  change (map ?f ?l) with (f <$> l). rewrite list_fmap_insert. simpl.
  apply list_insert_id. rewrite list_lookup_fmap, Hi. reflexivity.
Qed.

Lemma spawn_calls :
  map (fun t => (gPersonID t, gSample t)) (spawn calls) = calls.
Proof.
  unfold spawn. induction calls as [|[id s] l IH]; simpl;
    [|rewrite IH]; reflexivity.
Qed.

Lemma spawn_wrote person :
  List.filter (wrote registry person) (spawn calls) = [].
Proof.
  unfold spawn. induction calls as [|[id s] l IH]; simpl; auto.
Qed.

Lemma spawn_consistent w i t :
  spawn calls !! i = Some t -> consistent w i t.
Proof.
  unfold spawn. intros Hi. apply list_elem_of_lookup_2 in Hi.
  apply list_elem_of_In, in_map_iff in Hi as ([id s] & <- & _). exact I.
Qed.

Lemma invariant_start : inv (start h registry calls).
Proof.
  constructor; simpl.
  - reflexivity.
  - apply spawn_calls.
  - intros i t. apply spawn_consistent.
  - intros person i Hl. rewrite lookup_empty in Hl. discriminate.
  - intros person c0 Hc0. exists c0. split; [exact Hc0|].
    rewrite spawn_wrote. simpl. lia.
Qed.

(** A step that changes neither the memory nor the mutexes. *)
Lemma frame_step w i t next readers :
  inv w ->
  wThreads w !! i = Some t ->
  consistent w i (mkGoroutine (gPersonID t) (gSample t) next) ->
  (forall q, inCritical q t ->
             inCritical q (mkGoroutine (gPersonID t) (gSample t) next)) ->
  (forall q, wrote registry q (mkGoroutine (gPersonID t) (gSample t) next)
             = wrote registry q t) ->
  inv (mkWorld (wHeap w) (wPersons w) readers (wLocks w)
         (moveTo w i t next)).
Proof.
  intros Hinv Hi Hnew Hcrit Hwrote. constructor; simpl.
  - apply Hinv.
  - rewrite moveTo_calls by exact Hi. apply Hinv.
  - intros j tj Hj. rewrite moveTo_lookup in Hj by exact Hi.
    destruct (decide (i = j)) as [<-|Hne].
    + injection Hj as <-. exact Hnew.
    + exact (inv_threads _ _ _ _ Hinv j tj Hj).
  - intros q j Hq.
    destruct (inv_locks _ _ _ _ Hinv q j Hq) as (tj & Hj & Hc).
    rewrite moveTo_lookup by exact Hi.
    destruct (decide (i = j)) as [<-|Hne]; [|eauto].
    rewrite Hi in Hj. injection Hj as <-. eauto.
  - intros q c0 Hc0.
    destruct (inv_count _ _ _ _ Hinv q c0 Hc0) as (c & Hc & Hlen).
    exists c. split; [exact Hc|].
    pose proof (filter_insert_count (wrote registry q) (wThreads w) i t
                  (mkGoroutine (gPersonID t) (gSample t) next) Hi) as Hf.
    rewrite Hwrote in Hf. unfold moveTo. lia.
Qed.

(** [person.mu.Lock()] when the mutex is free. *)
Lemma lock_step w i t person :
  inv w ->
  wThreads w !! i = Some t ->
  gpc t = AtLock person ->
  wLocks w !! person = None ->
  inv (mkWorld (wHeap w) (wPersons w) (wReaders w)
         (<[person := i]> (wLocks w)) (moveTo w i t (AtRead person))).
Proof.
  intros Hinv Hi Hpc Hfree.
  pose proof (inv_threads _ _ _ _ Hinv i t Hi) as Hcons.
  unfold consistent in Hcons. rewrite Hpc in Hcons.
  constructor; simpl.
  - apply Hinv.
  - rewrite moveTo_calls by exact Hi. apply Hinv.
  - intros j tj Hj. rewrite moveTo_lookup in Hj by exact Hi.
    destruct (decide (i = j)) as [<-|Hne].
    + injection Hj as <-. unfold consistent. simpl.
      split; [exact Hcons|apply lookup_insert_eq].
    + pose proof (inv_threads _ _ _ _ Hinv j tj Hj) as Hold.
      unfold consistent in *. simpl.
      destruct (gpc tj) as [| | | | q | q old | q | [msg|] |]; auto.
      * destruct Hold as [Hq Hl]. split; [exact Hq|].
        rewrite lookup_insert_ne; [exact Hl|congruence].
      * destruct Hold as (Hq & Hl & Hc). split; [exact Hq|].
        split; [|exact Hc]. rewrite lookup_insert_ne; [exact Hl|congruence].
      * destruct Hold as [Hq Hl]. split; [exact Hq|].
        rewrite lookup_insert_ne; [exact Hl|congruence].
  - intros q j Hq. rewrite moveTo_lookup by exact Hi.
    destruct (decide (person = q)) as [<-|Hne].
    + rewrite lookup_insert_eq in Hq. injection Hq as <-.
      rewrite decide_True by reflexivity. eexists. split; [reflexivity|].
      reflexivity.
    + rewrite lookup_insert_ne in Hq by exact Hne.
      destruct (inv_locks _ _ _ _ Hinv q j Hq) as (tj & Hj & Hc).
      destruct (decide (i = j)) as [<-|Hne']; [|eauto].
      rewrite Hi in Hj. injection Hj as <-.
      unfold inCritical in Hc. rewrite Hpc in Hc. contradiction.
  - intros q c0 Hc0.
    destruct (inv_count _ _ _ _ Hinv q c0 Hc0) as (c & Hc & Hlen).
    exists c. split; [exact Hc|].
    pose proof (filter_insert_count (wrote registry q) (wThreads w) i t
                  (mkGoroutine (gPersonID t) (gSample t) (AtRead person))
                  Hi) as Hf.
    unfold wrote in Hf at 2 4. simpl in Hf. rewrite Hpc in Hf.
    unfold moveTo. simpl in Hf. lia.
Qed.

(** The assignment [person.Features = append(old, sample)]. *)
Lemma write_step w i t person old :
  inv w ->
  wThreads w !! i = Some t ->
  gpc t = AtWrite person old ->
  inv (mkWorld (setFeatures (wHeap w) person (old ++ [gSample t]))
         (wPersons w) (wReaders w) (wLocks w)
         (moveTo w i t (AtUnlock person))).
Proof.
  intros Hinv Hi Hpc.
  pose proof (inv_threads _ _ _ _ Hinv i t Hi) as Hcons.
  unfold consistent in Hcons. rewrite Hpc in Hcons.
  destruct Hcons as (Hreg & Hlock & c & Hc & Hold).
  constructor; simpl.
  - apply Hinv.
  - rewrite moveTo_calls by exact Hi. apply Hinv.
  - intros j tj Hj. rewrite moveTo_lookup in Hj by exact Hi.
    destruct (decide (i = j)) as [<-|Hne].
    + injection Hj as <-. unfold consistent. simpl. auto.
    + pose proof (inv_threads _ _ _ _ Hinv j tj Hj) as Hj'.
      unfold consistent in *. simpl.
      destruct (gpc tj) as [| | | | q | q old' | q | [msg|] |]; auto.
      destruct Hj' as (Hq & Hl & c' & Hc' & Hold').
      split; [exact Hq|]. split; [exact Hl|].
      exists c'. split; [|exact Hold'].
      rewrite lookup_alter_ne; [exact Hc'|].
      intros <-. rewrite Hlock in Hl. congruence.
  - intros q j Hq.
    destruct (inv_locks _ _ _ _ Hinv q j Hq) as (tj & Hj & Hcrit).
    rewrite moveTo_lookup by exact Hi.
    destruct (decide (i = j)) as [<-|Hne]; [|eauto].
    rewrite Hi in Hj. injection Hj as <-.
    unfold inCritical in *. rewrite Hpc in Hcrit. simpl. eauto.
  - intros q c0 Hc0.
    destruct (inv_count _ _ _ _ Hinv q c0 Hc0) as (cq & Hcq & Hlen).
    pose proof (filter_insert_count (wrote registry q) (wThreads w) i t
                  (mkGoroutine (gPersonID t) (gSample t) (AtUnlock person))
                  Hi) as Hf.
    unfold wrote in Hf at 2 4. simpl in Hf. rewrite Hpc in Hf.
    rewrite (inv_persons _ _ _ _ Hinv) in Hreg.
    unfold moveTo.
    destruct (decide (person = q)) as [<-|Hne].
    + rewrite lookup_alter_eq, Hc. simpl. eexists. split; [reflexivity|].
      simpl. rewrite Hc in Hcq. injection Hcq as <-.
      rewrite length_app. rewrite Hold in Hlen. simpl.
      rewrite bool_decide_true in Hf by exact Hreg. simpl in Hf. lia.
    + rewrite lookup_alter_ne by exact Hne. exists cq.
      split; [exact Hcq|].
      rewrite bool_decide_false in Hf by congruence. simpl in Hf. lia.
Qed.

(** [person.mu.Unlock()]. *)
Lemma unlock_step w i t person :
  inv w ->
  wThreads w !! i = Some t ->
  gpc t = AtUnlock person ->
  inv (mkWorld (wHeap w) (wPersons w) (wReaders w)
         (delete person (wLocks w)) (moveTo w i t (Returned None))).
Proof.
  intros Hinv Hi Hpc.
  pose proof (inv_threads _ _ _ _ Hinv i t Hi) as Hcons.
  unfold consistent in Hcons. rewrite Hpc in Hcons.
  destruct Hcons as (Hreg & Hlock).
  constructor; simpl.
  - apply Hinv.
  - rewrite moveTo_calls by exact Hi. apply Hinv.
  - intros j tj Hj. rewrite moveTo_lookup in Hj by exact Hi.
    destruct (decide (i = j)) as [<-|Hne].
    + injection Hj as <-. unfold consistent. simpl. eauto.
    + pose proof (inv_threads _ _ _ _ Hinv j tj Hj) as Hj'.
      unfold consistent in *. simpl.
      assert (Hother : forall q, wLocks w !! q = Some j ->
                                 delete person (wLocks w) !! q = Some j).
      { intros q Hq. rewrite lookup_delete_ne; [exact Hq|].
        intros <-. rewrite Hlock in Hq. congruence. }
      destruct (gpc tj) as [| | | | q | q old' | q | [msg|] |]; auto.
      * destruct Hj' as [Hq Hl]. auto.
      * destruct Hj' as (Hq & Hl & Hc). auto.
      * destruct Hj' as [Hq Hl]. auto.
  - intros q j Hq.
    destruct (decide (person = q)) as [<-|Hne].
    { rewrite lookup_delete_eq in Hq. discriminate. }
    rewrite lookup_delete_ne in Hq by exact Hne.
    destruct (inv_locks _ _ _ _ Hinv q j Hq) as (tj & Hj & Hcrit).
    rewrite moveTo_lookup by exact Hi.
    destruct (decide (i = j)) as [<-|Hne']; [|eauto].
    rewrite Hi in Hj. injection Hj as <-.
    unfold inCritical in Hcrit. rewrite Hpc in Hcrit. congruence.
  - intros q c0 Hc0.
    destruct (inv_count _ _ _ _ Hinv q c0 Hc0) as (c & Hc & Hlen).
    exists c. split; [exact Hc|].
    pose proof (filter_insert_count (wrote registry q) (wThreads w) i t
                  (mkGoroutine (gPersonID t) (gSample t) (Returned None))
                  Hi) as Hf.
    unfold wrote in Hf at 2 4. simpl in Hf. rewrite Hpc in Hf.
    unfold moveTo. lia.
Qed.

(** In a reachable world the person a goroutine found is in memory. *)
Lemma found_allocated w id person :
  inv w -> wPersons w !! id = Some person ->
  is_Some (structs (wHeap w) !! person).
Proof.
  intros Hinv Hreg. rewrite (inv_persons _ _ _ _ Hinv) in Hreg.
  destruct (allocated id person Hreg) as [c0 Hc0].
  destruct (inv_count _ _ _ _ Hinv person c0 Hc0) as (c & Hc & _). eauto.
Qed.

Lemma step_preserves w i w' : inv w -> step w i = Some w' -> inv w'.
Proof.
  intros Hinv Hstep. unfold step in Hstep.
  destruct (wThreads w !! i) as [t|] eqn:Hi; [|discriminate].
  pose proof (inv_threads _ _ _ _ Hinv i t Hi) as Hcons.
  unfold consistent in Hcons.
  destruct (gpc t) as [| | found | person | person | person old | person
                       | err |] eqn:Hpc; try discriminate.
  - injection Hstep as <-.
    apply frame_step; [exact Hinv|exact Hi|exact I| |].
    + unfold inCritical. rewrite Hpc. contradiction.
    + intros q. unfold wrote. rewrite Hpc. reflexivity.
  - injection Hstep as <-.
    apply frame_step; [exact Hinv|exact Hi|reflexivity| |].
    + unfold inCritical. rewrite Hpc. contradiction.
    + intros q. unfold wrote. rewrite Hpc. reflexivity.
  - injection Hstep as <-.
    apply frame_step; [exact Hinv|exact Hi| | |].
    + unfold consistent. simpl. destruct found; simpl; auto.
    + unfold inCritical. rewrite Hpc. contradiction.
    + intros q. unfold wrote. rewrite Hpc. destruct found; reflexivity.
  - destruct (found_allocated w _ person Hinv Hcons) as [c Hc].
    rewrite Hc in Hstep.
    destruct (wLocks w !! person) eqn:Hfree; [discriminate|].
    injection Hstep as <-. apply lock_step; auto.
  - destruct Hcons as [Hreg Hlock].
    destruct (found_allocated w _ person Hinv Hreg) as [c Hc].
    rewrite Hc in Hstep. injection Hstep as <-.
    apply frame_step; [exact Hinv|exact Hi| | |].
    + unfold consistent. simpl. eauto.
    + unfold inCritical. rewrite Hpc. simpl. auto.
    + intros q. unfold wrote. rewrite Hpc. reflexivity.
  - injection Hstep as <-. apply write_step; auto.
  - injection Hstep as <-. apply unlock_step; auto.
Qed.

Lemma run_preserves schedule : forall w w',
  inv w -> run w schedule = Some w' -> inv w'.
Proof.
  induction schedule as [|i rest IH]; intros w w' Hinv Hrun; simpl in Hrun.
  - injection Hrun as <-. exact Hinv.
  - destruct (step w i) as [w1|] eqn:Hstep; [|discriminate].
    eapply IH; [|exact Hrun]. eapply step_preserves; eassumption.
Qed.

(** *** When all goroutines have returned *)



(** *** No deadlock *)





(** *** Every schedule is short *)




Lemma run_app w s1 s2 w1 :
  run w s1 = Some w1 -> run w (s1 ++ s2) = run w1 s2.
Proof.
  revert w. induction s1 as [|i rest IH]; intros w Hrun; simpl in *.
  - injection Hrun as <-. reflexivity.
  - destruct (step w i) as [w'|]; [|discriminate]. apply IH, Hrun.
Qed.


End Interleavings.



Import ConcurrentExamples.

(** While goroutine 0 holds the mutex of "X", goroutine 1 has no step
    and goroutine 2, which appends to "Y", has one. *)
Example waits_for_same_person_only :
  match run (start heapXY registryXY callsXXY) prefixXXY with
  | Some w => step w 1 = None /\ is_Some (step w 2)
  | None => False
  end.
Proof. vm_compute. split; [reflexivity|eauto]. Qed.


(** * Further properties of the code *)

(** ** The numeric utilities *)

Lemma mul_comm (x y : float32) : F32.mul x y = F32.mul y x.
Proof.
  unfold F32.mul.
  destruct x as [sx|sx| |sx mx ex], y as [sy|sy| |sy my ey]; simpl;
    try reflexivity; try (rewrite xorb_comm; reflexivity).
  rewrite xorb_comm, Pos.mul_comm, Z.add_comm. reflexivity.
Qed.

Lemma cosineLoop_sym (a : list float32) : forall b dot na nb,
  cosineLoop b a dot nb na =
    (let '(d, x, y) := cosineLoop a b dot na nb in (d, y, x)).
Proof.
  induction a as [|x a IH]; intros [|y b] dot na nb; simpl; try reflexivity.
  rewrite IH, (mul_comm y x). reflexivity.
Qed.

Lemma cosineSimilarity_comm (a b : list float32) :
  cosineSimilarity a b = cosineSimilarity b a.
Proof.
  unfold cosineSimilarity. rewrite (Nat.eqb_sym (length b) (length a)).
  destruct (Nat.eqb (length a) (length b)); simpl; [|reflexivity].
  rewrite (cosineLoop_sym a b).
  destruct (cosineLoop a b F32.zero F32.zero F32.zero) as [[d na] nb].
  rewrite (orb_comm (F32.eqb nb F32.zero)).
  rewrite (mul_comm (F32.sqrt nb)). reflexivity.
Qed.


(** The value is not confined to the interval from -1 to 1: rounding
    makes the similarity of [1, 1] with itself exceed 1, and that of
    [1, -1] with its opposite fall below -1. *)
Example cosineSimilarity_leaves_unit_interval :
  (exists a, F32.ltb F32.one (cosineSimilarity a a) = true) /\
  (exists a b, F32.ltb (cosineSimilarity a b) (F32.of_Z (-1)) = true).
Proof.
  split.
  - exists [F32.of_Z 1; F32.of_Z 1]. vm_compute. reflexivity.
  - exists [F32.of_Z 1; F32.of_Z (-1)], [F32.of_Z (-1); F32.of_Z 1].
    vm_compute. reflexivity.
Qed.

(** *** Signs *)

Lemma round_aux_unsigned (p e : Z) mx ex lx :
  unsigned (binary_round_aux p e false mx ex lx).
Proof.
  unfold binary_round_aux.
  destruct (shr_fexp p e mx ex lx) as [mrs' e'].
  destruct (shr_fexp p e _ e' loc_Exact) as [mrs'' e''].
  destruct (shr_m mrs''); [left; reflexivity| |right; reflexivity].
  destruct (e'' <=? e - p); left; reflexivity.
Qed.

Lemma round_unsigned (p e : Z) m ex : unsigned (binary_round p e false m ex).
Proof.
  unfold binary_round. destruct (shl_align _ _ _). apply round_aux_unsigned.
Qed.

Lemma mul_self_unsigned (x : float32) : unsigned (F32.mul x x).
Proof.
  unfold F32.mul.
  destruct x as [s|s| |s m e]; simpl;
    try (left; simpl; rewrite xorb_nilpotent; reflexivity);
    try (right; reflexivity).
  rewrite xorb_nilpotent. apply round_aux_unsigned.
Qed.

Lemma add_unsigned (x y : float32) :
  unsigned x -> unsigned y -> unsigned (F32.add x y).
Proof.
  unfold F32.add.
  intros [Hx| ->] [Hy| ->]; try (right; destruct x; reflexivity);
    try (right; reflexivity).
  destruct x as [[]|[]| |[] mx ex], y as [[]|[]| |[] my ey];
    try discriminate; simpl; try (left; reflexivity).
  destruct (shl_align mx ex (Z.min ex ey)) as [mx' ex'].
  destruct (shl_align my ey (Z.min ex ey)) as [my' ey']. simpl.
  apply round_unsigned.
Qed.

Lemma sqrt_unsigned (x : float32) : unsigned x -> unsigned (F32.sqrt x).
Proof.
  unfold F32.sqrt.
  intros [Hx| ->]; [|right; reflexivity].
  assert (H64 : unsigned (F32.to_float64 x)).
  { destruct x as [[]|[]| |[] m e]; try discriminate; simpl;
      try (left; reflexivity). apply round_unsigned. }
  assert (Hs : unsigned (SFsqrt F32.prec64 F32.emax64 (F32.to_float64 x))).
  { destruct H64 as [H64| ->]; [|right; reflexivity].
    destruct (F32.to_float64 x) as [[]|[]| |[] m e]; try discriminate;
      simpl; try (left; reflexivity).
    destruct (SFsqrt_core_binary _ _ _ _) as [[mz ez] lz].
    apply round_aux_unsigned. }
  destruct Hs as [Hs| ->]; [|right; reflexivity].
  destruct (SFsqrt _ _ _) as [[]|[]| |[] m e]; try discriminate; simpl;
    try (left; reflexivity).
  apply round_unsigned.
Qed.

Lemma squaredDistance_unsigned (a : list float32) : forall b sum,
  unsigned sum -> unsigned (squaredDistance a b sum).
Proof.
  induction a as [|x a IH]; intros [|y b] sum Hs; simpl; auto.
  apply IH, add_unsigned; [exact Hs|apply mul_self_unsigned].
Qed.

Lemma sumSquares_unsigned (v : list float32) : unsigned (sumSquares v).
Proof.
  unfold sumSquares.
  assert (H0 : unsigned F32.zero) by (left; reflexivity).
  revert H0. generalize F32.zero.
  induction v as [|x v IH]; intros acc Hacc; simpl; [exact Hacc|].
  apply IH, add_unsigned; [exact Hacc|apply mul_self_unsigned].
Qed.

(** *** The distance *)

Lemma sub_self (x : float32) :
  F32.is_finite x = true -> F32.sub x x = F32.zero.
Proof.
  unfold F32.sub.
  destruct x as [[]|[]| |s m e]; try discriminate; intros _; simpl;
    try reflexivity.
  rewrite Z.min_id. rewrite Z.sub_diag. reflexivity.
Qed.

Lemma squaredDistance_self (a : list float32) :
  Forall (fun x => F32.is_finite x = true) a ->
  squaredDistance a a F32.zero = F32.zero.
Proof.
  induction 1 as [|x a Hx _ IH]; simpl; [reflexivity|].
  rewrite (sub_self x Hx). exact IH.
Qed.

(** X2.  [euclideanDistance]: on slices of different lengths the result is
    the largest finite binary32 value; the distance of a vector of finite
    components from itself is exactly [+0]; and the result is never
    negative: its sign bit is clear, or it is NaN. *)
Theorem euclideanDistance_edge_cases (a b : list float32) :
  (length a <> length b -> euclideanDistance a b = F32.maxFloat32) /\
  (Forall (fun x => F32.is_finite x = true) a ->
   euclideanDistance a a = F32.zero) /\
  (F32.is_positive (euclideanDistance a b) = true \/
   euclideanDistance a b = S754_nan).
Proof.
  unfold euclideanDistance. split; [|split].
  - intros Hne. destruct (Nat.eqb_spec (length a) (length b));
      [contradiction|reflexivity].
  - intros Hfin. rewrite Nat.eqb_refl. simpl.
    rewrite (squaredDistance_self a Hfin). reflexivity.
  - destruct (Nat.eqb (length a) (length b)); simpl; [|left; reflexivity].
    apply sqrt_unsigned, squaredDistance_unsigned. left. reflexivity.
Qed.

Lemma euclideanDistance_edge_cases_witness :
  euclideanDistance [F32.of_Z 1; F32.of_Z 2]
                    [F32.of_Z 1; F32.of_Z 2; F32.of_Z 3] = F32.maxFloat32 /\
  euclideanDistance [F32.of_Z 1; F32.of_Z 2; F32.of_Z 3]
                    [F32.of_Z 1; F32.of_Z 2; F32.of_Z 3] = F32.zero.
Proof.
  split.
  - destruct (euclideanDistance_edge_cases
                [F32.of_Z 1; F32.of_Z 2]
                [F32.of_Z 1; F32.of_Z 2; F32.of_Z 3]) as (H & _).
    apply H. cbn [length]. lia.
  - destruct (euclideanDistance_edge_cases
                [F32.of_Z 1; F32.of_Z 2; F32.of_Z 3] []) as (_ & H & _).
    apply H. repeat constructor.
Defined.

Example euclidean_3_4_5 :
  euclideanDistance [F32.of_Z 0; F32.of_Z 0] [F32.of_Z 3; F32.of_Z 4]
  = F32.of_Z 5.
Proof. vm_compute. reflexivity. Qed.

(** An infinite component makes the distance of a vector from itself
    NaN. *)
Example euclidean_infinite :
  euclideanDistance [S754_infinity false] [S754_infinity false] = S754_nan.
Proof. vm_compute. reflexivity. Qed.







(** *** NaN components *)

Lemma add_nan_r (x : float32) : F32.add x S754_nan = S754_nan.
Proof. destruct x; reflexivity. Qed.

Lemma mul_nan_r (x : float32) : F32.mul x S754_nan = S754_nan.
Proof. destruct x; reflexivity. Qed.

Lemma div_nan_r (x : float32) : F32.div x S754_nan = S754_nan.
Proof. destruct x; reflexivity. Qed.

Lemma sumSquares_from_nan (v : list float32) :
  fold_left (fun norm x => F32.add norm (F32.mul x x)) v S754_nan
  = S754_nan.
Proof. induction v as [|x v IH]; simpl; [reflexivity|exact IH]. Qed.

Lemma sumSquares_step_nan (v : list float32) : forall acc,
  In S754_nan v ->
  fold_left (fun norm x => F32.add norm (F32.mul x x)) v acc = S754_nan.
Proof.
  induction v as [|x v IH]; intros acc; simpl; [intros []|].
  intros [->|Hin]; [|apply IH, Hin].
  simpl. rewrite add_nan_r. apply sumSquares_from_nan.
Qed.

Lemma normalizeFeature_nan_all (v : list float32) :
  In S754_nan v ->
  normalizeFeature v = map (fun _ => S754_nan) v.
Proof.
  intros Hin. unfold normalizeFeature, sumSquares.
  rewrite (sumSquares_step_nan v F32.zero Hin). simpl.
  apply map_ext. intros x. apply div_nan_r.
Qed.

(** The similarity with a vector that has a NaN component is [+0] or
    NaN. *)
Lemma cosineSimilarity_nan_r (a b : list float32) :
  In S754_nan b ->
  cosineSimilarity a b = F32.zero \/ cosineSimilarity a b = S754_nan.
Proof.
  intros Hin. unfold cosineSimilarity.
  destruct (Nat.eqb_spec (length a) (length b)) as [Hlen|]; simpl;
    [|left; reflexivity].
  destruct (cosineLoop_norms a b F32.zero F32.zero F32.zero Hlen)
    as [dot' ->].
  rewrite (sumSquares_step_nan b F32.zero Hin).
  destruct (F32.eqb _ F32.zero); simpl; [left; reflexivity|].
  right. rewrite mul_nan_r. apply div_nan_r.
Qed.

Lemma ltb_zero_or_nan (best sim : float32) :
  F32.leb F32.zero best = true ->
  sim = F32.zero \/ sim = S754_nan ->
  F32.ltb best sim = false.
Proof.
  intros Hb [-> | ->]; [apply leb_not_gtb, Hb|].
  destruct best; reflexivity.
Qed.

Lemma matchSamples_nonneg (feature : list float32) (person : Person)
    (samples : list FaceFeature) : forall best,
  F32.leb F32.zero (bestConfidence best) = true ->
  F32.leb F32.zero
    (bestConfidence (fold_left (matchSample feature person) samples best))
  = true.
Proof.
  induction samples as [|s l IH]; intros best Hb; simpl; [exact Hb|].
  apply IH, matchSample_nonneg, Hb.
Qed.

Lemma matchSample_nan (feature : list float32) (person : Person)
    (best : Best) (sample : FaceFeature) :
  F32.leb F32.zero (bestConfidence best) = true ->
  In S754_nan (Feature sample) ->
  matchSample feature person best sample = best.
Proof.
  intros Hb Hnan. unfold matchSample.
  rewrite ltb_zero_or_nan; [reflexivity|exact Hb|].
  apply cosineSimilarity_nan_r, Hnan.
Qed.

(** X4.  One NaN component turns the whole normalized vector into NaN, and
    the vector then has no positive similarity with anything: the
    similarity is [+0] (for another length) or NaN. *)
Theorem normalizeFeature_nan (v : list float32) :
  In S754_nan v ->
  normalizeFeature v = map (fun _ => S754_nan) v /\
  forall a,
    cosineSimilarity a (normalizeFeature v) = F32.zero \/
    cosineSimilarity a (normalizeFeature v) = S754_nan.
Proof.
  intros Hin. split; [apply normalizeFeature_nan_all, Hin|].
  intros a. apply cosineSimilarity_nan_r.
  rewrite normalizeFeature_nan_all by exact Hin.
  apply in_map_iff. exists S754_nan. auto.
Qed.

Lemma normalizeFeature_nan_witness :
  normalizeFeature [F32.of_Z 3; S754_nan; F32.of_Z 4]
  = [S754_nan; S754_nan; S754_nan].
Proof.
  apply (normalizeFeature_nan [F32.of_Z 3; S754_nan; F32.of_Z 4]).
  right. left. reflexivity.
Defined.

(** X5.  A stored sample with a NaN component is never the best match: the
    matcher returns what it returns when the sample is not stored.  A
    query with a NaN component matches nothing: the matcher returns the
    empty id, the empty name and the confidence [0]. *)
Theorem matchPerson_nan (feature : list float32) (registry : list Person) :
  (forall before person after earlier sample later,
      registry = before ++ person :: after ->
      Features person = earlier ++ sample :: later ->
      In S754_nan (Feature sample) ->
      matchPerson feature registry
      = matchPerson feature
          (before ++ mkPerson (ID person) (Name person) (earlier ++ later)
                  :: after)) /\
  (In S754_nan feature -> matchPerson feature registry = best0).
Proof.
  split.
  - intros before person after earlier sample later -> Hfs Hnan.
    unfold matchPerson. rewrite !fold_left_app. simpl. f_equal.
    unfold matchOnePerson. rewrite Hfs. simpl.
    rewrite !fold_left_app. simpl.
    change (matchSample feature
              (mkPerson (ID person) (Name person) (earlier ++ later)))
      with (matchSample feature person).
    f_equal. apply matchSample_nan; [|exact Hnan].
    apply matchSamples_nonneg, matchLoop_nonneg, best0_nonneg.
  - intros Hnan. unfold matchPerson.
    generalize best0_nonneg. generalize best0.
    induction registry as [|p l IH]; intros best Hb; simpl; [reflexivity|].
    assert (Hp : matchOnePerson feature best p = best).
    { unfold matchOnePerson.
      induction (Features p) as [|s fs IHs]; simpl; [reflexivity|].
      unfold matchSample at 2. rewrite ltb_zero_or_nan; [exact IHs|exact Hb|].
      rewrite cosineSimilarity_comm. apply cosineSimilarity_nan_r, Hnan. }
    rewrite Hp. apply IH, Hb.
Qed.

Lemma matchPerson_nan_witness :
  matchPerson (vec [1; 0; 0])
    [mkPerson "A" "Alice"
       [mkFaceFeature "A" [S754_nan; F32.one; F32.zero];
        mkFaceFeature "A" (vec [1; 0; 0])]]
  = matchPerson (vec [1; 0; 0]) [personA] /\
  matchPerson [F32.one; S754_nan; F32.zero] [personA; personB] = best0.
Proof.
  split.
  - destruct (matchPerson_nan (vec [1; 0; 0])
                [mkPerson "A" "Alice"
                   [mkFaceFeature "A" [S754_nan; F32.one; F32.zero];
                    mkFaceFeature "A" (vec [1; 0; 0])]]) as [H _].
    exact (H [] _ [] [] (mkFaceFeature "A" [S754_nan; F32.one; F32.zero])
             [mkFaceFeature "A" (vec [1; 0; 0])]
             eq_refl eq_refl (or_introl eq_refl)).
  - destruct (matchPerson_nan [F32.one; S754_nan; F32.zero]
                [personA; personB]) as [_ H].
    apply H. right. left. reflexivity.
Defined.

(** ** The matcher and the visiting order *)


(** Two positive values neither of which is greater are the same. *)
Lemma positive_incomparable_eq (x y : float32) :
  F32.ltb F32.zero x = true -> F32.ltb F32.zero y = true ->
  F32.ltb x y = false -> F32.ltb y x = false -> x = y.
Proof.
  unfold F32.ltb, F32.zero, SFltb, SFcompare.
  destruct x as [[]|[]| |[] mx ex], y as [[]|[]| |[] my ey]; simpl;
    try discriminate; try reflexivity.
  intros _ _.
  change (Pos.compare_cont Eq mx my) with (Pos.compare mx my).
  change (Pos.compare_cont Eq my mx) with (Pos.compare my mx).
  destruct (Z.compare_spec ex ey), (Z.compare_spec ey ex);
    try discriminate; try lia.
  destruct (Pos.compare_spec mx my), (Pos.compare_spec my mx);
    try discriminate; try lia.
  intros _ _. subst. reflexivity.
Qed.

Lemma similarities_In (feature : list float32) (persons : list Person)
    (s : float32) :
  In s (similarities feature persons) <->
  exists person sample,
    In person persons /\ In sample (Features person) /\
    s = cosineSimilarity feature (Feature sample).
Proof.
  unfold similarities. rewrite in_flat_map. split.
  - intros (person & Hp & Hs). apply in_map_iff in Hs as (sample & <- & Hs).
    eauto.
  - intros (person & sample & Hp & Hs & ->). exists person.
    split; [exact Hp|]. apply in_map_iff. eauto.
Qed.

Lemma matchPerson_facts (feature : list float32) (persons : list Person) :
  dominates (matchPerson feature persons) (similarities feature persons) /\
  attained feature persons (matchPerson feature persons).
Proof.
  split.
  - apply (matchLoop_dominates feature persons best0 []). intros s [].
  - apply matchLoop_attained; auto using best0_nonneg. left. reflexivity.
Qed.

Lemma bestConfidence_order (feature : list float32)
    (persons persons' : list Person) :
  (forall person, In person persons -> In person persons') ->
  (forall person, In person persons' -> In person persons) ->
  bestConfidence (matchPerson feature persons)
  = bestConfidence (matchPerson feature persons').
Proof.
  intros H12 H21.
  destruct (matchPerson_facts feature persons) as [Hd1 Ha1].
  destruct (matchPerson_facts feature persons') as [Hd2 Ha2].
  assert (Hin : forall p q sample,
             (forall person, In person p -> In person q) ->
             In sample (similarities feature p) ->
             In sample (similarities feature q)).
  { intros p q s Hpq Hs. apply similarities_In in Hs
      as (person & sample & Hp & Hs & ->).
    apply similarities_In. exists person, sample. auto. }
  destruct Ha1 as [E1 | (p1 & s1 & Hp1 & Hs1 & _ & _ & Hc1 & Hpos1)];
    destruct Ha2 as [E2 | (p2 & s2 & Hp2 & Hs2 & _ & _ & Hc2 & Hpos2)].
  - rewrite E1, E2. reflexivity.
  - exfalso.
    assert (Hs : In (bestConfidence (matchPerson feature persons'))
                    (similarities feature persons)).
    { apply (Hin persons' persons); [exact H21|].
      apply similarities_In. exists p2, s2. auto. }
    apply Hd1 in Hs. rewrite E1 in Hs.
    change (bestConfidence best0) with F32.zero in Hs.
    rewrite Hs in Hpos2. discriminate.
  - exfalso.
    assert (Hs : In (bestConfidence (matchPerson feature persons))
                    (similarities feature persons')).
    { apply (Hin persons persons'); [exact H12|].
      apply similarities_In. exists p1, s1. auto. }
    apply Hd2 in Hs. rewrite E2 in Hs.
    change (bestConfidence best0) with F32.zero in Hs.
    rewrite Hs in Hpos1. discriminate.
  - apply positive_incomparable_eq; try assumption.
    + apply Hd1, (Hin persons' persons); [exact H21|].
      apply similarities_In. exists p2, s2. auto.
    + apply Hd2, (Hin persons persons'); [exact H12|].
      apply similarities_In. exists p1, s1. auto.
Qed.

(** X6.  The score does not depend on the order in which the registry map is
    visited, nor does the decision between a match and "unknown": for two
    visiting orders of the same persons the confidence of the matcher is
    the same binary32 value, the results of [Recognize] for the face
    carry the same confidence, and when the score is below the threshold
    the two results are the same.  Only the identity that is named can
    differ, between persons that attain the same best score. *)
Theorem matchPerson_order_independent
    (feature : list float32) (visit visit' : list Person)
    (threshold : float32) (faceRect : Rectangle) :
  Permutation visit visit' ->
  bestConfidence (matchPerson feature visit)
  = bestConfidence (matchPerson feature visit') /\
  rConfidence (recognizeFace threshold visit feature faceRect)
  = rConfidence (recognizeFace threshold visit' feature faceRect) /\
  (F32.leb threshold (bestConfidence (matchPerson feature visit)) = false ->
   recognizeFace threshold visit feature faceRect
   = recognizeFace threshold visit' feature faceRect).
Proof.
  intros Hperm.
  assert (Heq : bestConfidence (matchPerson feature visit)
                = bestConfidence (matchPerson feature visit')).
  { apply bestConfidence_order; intros person Hin.
    - eapply Permutation_in; eassumption.
    - eapply Permutation_in; [symmetry|]; eassumption. }
  split; [exact Heq|]. unfold recognizeFace. rewrite <- Heq.
  destruct (F32.leb threshold _); simpl.
  - split; [reflexivity|discriminate].
  - split; [reflexivity|]. intros _. reflexivity.
Qed.

(** Two persons with the same sample: the visiting order decides who is
    named, the score is the same. *)
Lemma matchPerson_order_independent_witness :
  bestConfidence (matchPerson query [personA; personB])
  = bestConfidence (matchPerson query [personB; personA]) /\
  recognizeFace threshold06 [personB; personN] (vec [1; 0; 0]) box
  = recognizeFace threshold06 [personN; personB] (vec [1; 0; 0]) box.
Proof.
  split.
  - destruct (matchPerson_order_independent query [personA; personB]
                [personB; personA] threshold06 box) as (H & _).
    + apply perm_swap.
    + exact H.
  - destruct (matchPerson_order_independent (vec [1; 0; 0])
                [personB; personN] [personN; personB] threshold06 box)
      as (_ & _ & H).
    + apply perm_swap.
    + apply H. vm_compute. reflexivity.
Defined.

(** *** First come, first named *)

Lemma matchPerson_flat (feature : list float32) (persons : list Person) :
  forall best,
    fold_left (matchOnePerson feature) persons best
    = fold_left (fun best ps => matchSample feature ps.1 best ps.2)
                (samplesOf persons) best.
Proof.
  induction persons as [|p l IH]; intros best; simpl; [reflexivity|].
  rewrite fold_left_app, IH. f_equal.
  unfold matchOnePerson. generalize best.
  induction (Features p) as [|s fs IHs]; intros b; simpl;
    [reflexivity|apply IHs].
Qed.

(** X7.  Among the samples that attain the best score the first one in
    visiting order names the result: when a sample of positive
    similarity is preceded only by samples of smaller (or NaN)
    similarity and followed by none of greater similarity, the matcher
    returns its owner's id and name and its similarity. *)
Theorem matchPerson_first_wins
    (feature : list float32) (registry : list Person)
    (earlier later : list (Person * FaceFeature))
    (person : Person) (sample : FaceFeature) :
  let sim s := cosineSimilarity feature (Feature s) in
  samplesOf registry = earlier ++ (person, sample) :: later ->
  F32.ltb F32.zero (sim sample) = true ->
  (forall p s, In (p, s) earlier ->
               F32.ltb (sim s) (sim sample) = true \/ sim s = S754_nan) ->
  (forall p s, In (p, s) later -> F32.ltb (sim sample) (sim s) = false) ->
  matchPerson feature registry
  = mkBest (ID person) (Name person) (sim sample).
Proof.
  intros sim Hsplit Hpos Hearlier Hlater.
  unfold matchPerson. rewrite matchPerson_flat, Hsplit.
  rewrite fold_left_app. simpl.
  assert (Hpre : forall l best,
             (forall p s, In (p, s) l ->
                F32.ltb (sim s) (sim sample) = true \/ sim s = S754_nan) ->
             F32.ltb (bestConfidence best) (sim sample) = true ->
             F32.ltb (bestConfidence
                        (fold_left
                           (fun best ps => matchSample feature ps.1 best ps.2)
                           l best)) (sim sample) = true).
  { induction l as [|[p s] l IH]; intros best Hl Hb; simpl; [exact Hb|].
    apply IH; [intros q t Hin; apply (Hl q t); right; exact Hin|].
    unfold matchSample. fold (sim s).
    destruct (F32.ltb (bestConfidence best) (sim s)) eqn:Hlt; [|exact Hb].
    simpl. destruct (Hl p s (or_introl eq_refl)) as [Hs|Hs]; [exact Hs|].
    rewrite Hs in Hlt. destruct (bestConfidence best); discriminate. }
  specialize (Hpre earlier best0 Hearlier Hpos).
  set (b := fold_left _ earlier best0) in *.
  unfold matchSample at 2. fold (sim sample). rewrite Hpre.
  assert (Hpost : forall l best,
             (forall p s, In (p, s) l ->
                          F32.ltb (bestConfidence best) (sim s) = false) ->
             fold_left (fun best ps => matchSample feature ps.1 best ps.2)
                       l best = best).
  { induction l as [|[p s] l IH]; intros best Hl; simpl; [reflexivity|].
    unfold matchSample at 2. fold (sim s).
    rewrite (Hl p s (or_introl eq_refl)).
    apply IH. intros q t Hin. apply (Hl q t). right. exact Hin. }
  apply Hpost. exact Hlater.
Qed.

Lemma matchPerson_first_wins_witness :
  matchPerson (vec [1; 0; 0])
    [personN; personA; mkPerson "A2" "Alice again" (Features personA)]
  = mkBest "A" "Alice" F32.one.
Proof.
  apply (matchPerson_first_wins (vec [1; 0; 0])
           [personN; personA; mkPerson "A2" "Alice again" (Features personA)]
           [(personN, mkFaceFeature "N" (vec [-1; 0; 0]))]
           [(mkPerson "A2" "Alice again" (Features personA),
             mkFaceFeature "A" (vec [1; 0; 0]))]
           personA (mkFaceFeature "A" (vec [1; 0; 0]))).
  - reflexivity.
  - vm_compute. reflexivity.
  - intros p s [[= <- <-]|[]]. left. vm_compute. reflexivity.
  - intros p s [[= <- <-]|[]]. vm_compute. reflexivity.
Defined.

(** ** The registry *)

Lemma deref_frame (h h' : Heap) (q : loc) :
  structs h' !! q = structs h !! q -> arrays h' = arrays h ->
  deref h' q = deref h q.
Proof.
  intros Hs Ha. unfold deref. rewrite Hs.
  destruct (structs h !! q) as [c|]; simpl; [|reflexivity].
  f_equal. apply readCell_arrays. exact Ha.
Qed.

(** What [AddPerson] allocates and registers. *)
Lemma AddPerson_allocates
    (fr : FaceRecognizer) (h : Heap) (id name : string) :
  persons fr !! id = None ->
  exists p h',
    AddPerson fr h id name
    = Ok (mkFaceRecognizer (modelConfig fr) (<[id := p]> (persons fr))
            (threshold fr) (pigoParams fr), h') /\
    structs h !! p = None /\
    structs h' = <[p := mkPersonCell id name []]> (structs h) /\
    arrays h' = arrays h.
Proof.
  intros Habsent.
  pose proof (newStruct_spec h (mkPersonCell id name [])) as Hnew.
  unfold AddPerson. rewrite Habsent.
  destruct (newStruct h (mkPersonCell id name [])) as [p h'].
  exists p, h'. split; [reflexivity|exact Hnew].
Qed.

(** X8.  [AddPerson] of an id that is not registered succeeds and registers
    a new, empty person: [GetPerson] returns a pointer to a struct that
    did not exist before, holding the id, the name and no sample;
    [GetSampleCount] is 0; the other ids and the structs that existed
    stay as they were; a second [AddPerson] of the id is refused,
    whatever the name; and [RemovePerson] of the id gives back the
    recognizer the call started from. *)
Theorem AddPerson_registers_empty_person
    (fr : FaceRecognizer) (h : Heap) (id name : string) :
  persons fr !! id = None ->
  exists p fr' h',
    AddPerson fr h id name = Ok (fr', h') /\
    structs h !! p = None /\
    GetPerson fr' id = Ok p /\
    deref h' p = Some (mkPerson id name []) /\
    GetSampleCount fr' h' id = Ok 0 /\
    (forall other, other <> id -> GetPerson fr' other = GetPerson fr other) /\
    (forall q, is_Some (structs h !! q) -> deref h' q = deref h q) /\
    (forall name', AddPerson fr' h' id name'
                   = Err ("person ID " ++ id ++ " already exists")) /\
    RemovePerson fr' id = Ok fr.
Proof.
  intros Habsent.
  destruct (AddPerson_allocates fr h id name Habsent)
    as (p & h' & Hadd & Hfresh & Hstructs & Harrays).
  eexists p, _, h'. split; [exact Hadd|].
  split; [exact Hfresh|].
  split; [unfold GetPerson; simpl; rewrite lookup_insert_eq; reflexivity|].
  split; [unfold deref; rewrite Hstructs, lookup_insert_eq; reflexivity|].
  split.
  { unfold GetSampleCount. simpl.
    rewrite lookup_insert_eq, Hstructs, lookup_insert_eq. reflexivity. }
  split.
  { intros other Hne. unfold GetPerson. simpl.
    rewrite lookup_insert_ne by congruence. reflexivity. }
  split.
  { intros q [c Hq]. apply deref_frame; [|exact Harrays].
    rewrite Hstructs, lookup_insert_ne; [reflexivity|].
    intros ->. congruence. }
  split.
  { intros name'. unfold AddPerson. simpl.
    rewrite lookup_insert_eq. reflexivity. }
  unfold RemovePerson. simpl. rewrite lookup_insert_eq.
  rewrite delete_insert_id by exact Habsent.
  destruct fr; reflexivity.
Qed.

Lemma AddPerson_registers_empty_person_witness :
  exists p fr' h',
    AddPerson fr0 emptyHeap "001" "Alice" = Ok (fr', h') /\
    deref h' p = Some (mkPerson "001" "Alice" []) /\
    GetSampleCount fr' h' "001" = Ok 0 /\
    RemovePerson fr' "001" = Ok fr0.
Proof.
  destruct (AddPerson_registers_empty_person fr0 emptyHeap "001" "Alice")
    as (p & fr' & h' & Hadd & _ & _ & Hderef & Hcount & _ & _ & _ & Hrm).
  - reflexivity.
  - exists p, fr', h'. auto.
Defined.

(** X9.  [RemovePerson] of a registered id succeeds and only forgets the
    pointer: the id is unknown afterwards ([GetPerson], [GetSampleCount]
    and a second [RemovePerson] fail), the other ids keep their
    pointers, and an [AddPerson] of the same id afterwards starts from a
    new struct without samples, while the struct the removed pointer
    leads to still holds what it held. *)
Theorem RemovePerson_forgets_pointer
    (fr : FaceRecognizer) (h : Heap) (id : string) (p : loc) :
  persons fr !! id = Some p ->
  is_Some (structs h !! p) ->
  let missing := ("person ID " ++ id ++ " does not exist")%string in
  exists fr1,
    RemovePerson fr id = Ok fr1 /\
    GetPerson fr1 id = Err missing /\
    GetSampleCount fr1 h id = Err missing /\
    RemovePerson fr1 id = Err missing /\
    (forall other, other <> id -> GetPerson fr1 other = GetPerson fr other) /\
    forall name, exists p' fr2 h2,
      AddPerson fr1 h id name = Ok (fr2, h2) /\
      GetPerson fr2 id = Ok p' /\
      p' <> p /\
      GetSampleCount fr2 h2 id = Ok 0 /\
      deref h2 p = deref h p.
Proof.
  intros Hid Halloc missing. unfold RemovePerson at 1. rewrite Hid.
  eexists. split; [reflexivity|].
  split; [unfold GetPerson; simpl; rewrite lookup_delete_eq; reflexivity|].
  split; [unfold GetSampleCount; simpl; rewrite lookup_delete_eq;
          reflexivity|].
  split; [unfold RemovePerson; simpl; rewrite lookup_delete_eq;
          reflexivity|].
  split.
  { intros other Hne. unfold GetPerson. simpl.
    rewrite lookup_delete_ne by congruence. reflexivity. }
  intros name.
  set (fr1 := mkFaceRecognizer _ _ _ _).
  destruct (AddPerson_allocates fr1 h id name)
    as (p' & h2 & Hadd & Hfresh & Hstructs & Harrays).
  { simpl. apply lookup_delete_eq. }
  assert (Hne : p' <> p).
  { intros ->. destruct Halloc as [c Hc]. congruence. }
  eexists p', _, h2. split; [exact Hadd|].
  split; [unfold GetPerson; simpl; rewrite lookup_insert_eq; reflexivity|].
  split; [exact Hne|].
  split.
  { unfold GetSampleCount. simpl.
    rewrite lookup_insert_eq, Hstructs, lookup_insert_eq. reflexivity. }
  apply deref_frame; [|exact Harrays].
  rewrite Hstructs, lookup_insert_ne by exact Hne. reflexivity.
Qed.

Lemma RemovePerson_forgets_pointer_witness :
  GetPerson fr1 "001" = Ok alice /\
  exists fr', RemovePerson fr1 "001" = Ok fr' /\
              GetPerson fr' "001"
              = Err "person ID 001 does not exist".
Proof.
  split; [reflexivity|].
  destruct (RemovePerson_forgets_pointer fr1 h1 "001" alice)
    as (fr' & Hrm & Hget & _).
  - reflexivity.
  - eexists. reflexivity.
  - exists fr'. split; [exact Hrm|exact Hget].
Defined.

(** ** Detection *)

Lemma wrap64_small (z : Z) : - 2 ^ 63 <= z < 2 ^ 63 -> wrap64 z = z.
Proof.
  intros Hz. unfold wrap64. rewrite Z.mod_small by lia. lia.
Qed.





(** ** Recognition and enrolment *)



Section OrchestratorMore.

Context {Mat GoImage : Type}.
Variable ToImage : Mat -> option GoImage.
Variable Region : Mat -> Rectangle -> Mat.
Variable MatEmpty : Mat -> bool.
Variable cascade : PigoParams -> GoImage -> list Detection.
Variable forward :
  Z * Z -> spec_float -> list spec_float -> bool -> bool -> Mat ->
  list float32.

Abbreviation detectFaces := (DetectFaces GoImage cascade).
Abbreviation addFaceSample :=
  (AddFaceSample Mat GoImage ToImage Region MatEmpty cascade forward).
Abbreviation recognize :=
  (Recognize Mat GoImage ToImage Region MatEmpty cascade forward).

Lemma recognizeFaces_boxes fr seen img faces : forall i,
  map rBoundingBox
      (recognizeFaces Mat Region MatEmpty forward fr seen img i faces)
  = List.filter (fun face => negb (MatEmpty (Region img face))) faces.
Proof.
  induction faces as [|face rest IH]; intros i; simpl; [reflexivity|].
  unfold ExtractFeature.
  destruct (MatEmpty (Region img face)); simpl.
  - apply IH.
  - rewrite IH. f_equal. unfold recognizeFace.
    destruct (F32.leb _ _); reflexivity.
Qed.

(** X11.  [Recognize] fails only when the image cannot be converted.
    Otherwise it returns one result for each detected face whose
    region is not empty, in the order of detection and with the
    face's rectangle as bounding box; faces with an empty region are
    left out without an error, so there are at most as many results
    as faces, and none when no face is detected. *)
Theorem Recognize_one_result_per_face
    (fr : FaceRecognizer) (seen : nat -> list Person) (img : Mat) :
  match ToImage img with
  | None => recognize fr seen img = Err "failed to convert image"
  | Some goImg =>
      exists results,
        recognize fr seen img = Ok results /\
        map rBoundingBox results
        = List.filter (fun face => negb (MatEmpty (Region img face)))
                      (detectFaces fr goImg) /\
        (length results <= length (detectFaces fr goImg))%nat /\
        (detectFaces fr goImg = [] -> results = [])
  end.
Proof.
  unfold Recognize. destruct (ToImage img) as [goImg|]; [|reflexivity].
  eexists. split; [reflexivity|].
  pose proof (recognizeFaces_boxes fr seen img
                (DetectFaces GoImage cascade fr goImg) 0) as Hboxes.
  split; [exact Hboxes|]. split.
  - rewrite <- (length_map rBoundingBox), Hboxes. apply filter_length_le.
  - intros ->. reflexivity.
Qed.


(** X13.  [AddFaceSample] writes to the struct of the person it is called
    for and to one new array, and to nothing else: a person stored at
    another address holds the same value afterwards, and the registry
    reports the same sample count for it. *)
Theorem AddFaceSample_leaves_other_persons
    (fr : FaceRecognizer) (h h' : Heap) (personID : string) (img : Mat)
    (person : loc) :
  addFaceSample fr h personID img = Ok h' ->
  persons fr !! personID = Some person ->
  forall (other : string) (q : loc) (value : Person),
    persons fr !! other = Some q -> q <> person -> holds h q value ->
    holds h' q value /\
    deref h' q = Some value /\
    GetSampleCount fr h' other = GetSampleCount fr h other.
Proof.
  intros Hadd Hid other q value Hother Hne Hholds.
  destruct (AddFaceSample_inversion _ _ _ _ _ _ _ _ _ _ Hadd)
    as (person' & c & goImg & face0 & rest & Hid' & Hp & Himg & Hf & Hm).
  assert (person' = person) as -> by congruence.
  destruct (AddFaceSample_success ToImage Region MatEmpty cascade forward
              fr h personID img person c goImg face0 rest
              Hid Hp Himg Hf Hm) as (a & Hfresh & Heq).
  rewrite Heq in Hadd. injection Hadd as <-.
  assert (Hq : holds
                 (mkHeap
                    (<[person := mkPersonCell (cID c) (cName c)
                         (cFeatures c ++ [mkFeatureCell personID (Some a)])]>
                       (structs h))
                    (<[a := encoded Mat forward fr (Region img face0)]>
                       (arrays h))) q value).
  { destruct Hholds as (cq & Hcq & Hidq & Hnameq & Hfs).
    exists cq. simpl. rewrite lookup_insert_ne by congruence.
    repeat split; auto.
    eapply Forall2_impl; [exact Hfs|].
    intros cell f. apply holdsFeature_extends. simpl.
    apply insert_subseteq. exact Hfresh. }
  split; [exact Hq|]. split; [apply holds_deref; exact Hq|].
  unfold GetSampleCount. rewrite Hother. simpl.
  rewrite lookup_insert_ne by congruence. reflexivity.
Qed.

End OrchestratorMore.


Lemma AddFaceSample_leaves_other_persons_witness :
  exists h',
    addFaceSample fr12 h12 "001" picture = Ok h' /\
    GetSampleCount fr12 h' "001" = Ok 1 /\
    deref h' bob = Some bobValue /\
    GetSampleCount fr12 h' "002" = Ok 1.
Proof.
  eexists. split; [vm_compute; reflexivity|].
  split; [vm_compute; reflexivity|].
  destruct (AddFaceSample_leaves_other_persons ToImage Region MatEmpty
              cascade forward fr12 h12 _ "001" picture alice
              ltac:(vm_compute; reflexivity) eq_refl
              "002" bob bobValue eq_refl) as (_ & Hderef & Hcount).
  - discriminate.
  - exists (mkPersonCell "002" "Bob" [mkFeatureCell "002" (Some 1%positive)]).
    split; [reflexivity|]. split; [reflexivity|]. split; [reflexivity|].
    constructor; [|constructor]. split; reflexivity.
  - split; [exact Hderef|]. rewrite Hcount. reflexivity.
Defined.

(** ** Options *)

Lemma modelConfigs_consistent (modelType : string) (config : ModelConfig) :
  modelConfigs !! modelType = Some config -> Type_ config = modelType.
Proof.
  unfold modelConfigs. simpl.
  repeat (rewrite lookup_insert_Some;
          intros [[<- <-]|[_ H]]; [reflexivity|revert H]).
  rewrite lookup_empty. discriminate.
Qed.

(** X14.  Whatever options of this file [NewFaceRecognizer] is given, the
    recognizer it configures starts with an empty registry, and its
    model configuration is either tagged "custom" or is exactly the
    predefined configuration of its type.  [WithModelType] with a type
    that has no predefined configuration ("custom" is one) changes
    nothing, and [WithCustomModel] tags the configuration "custom"
    whatever type it was given with. *)
Theorem configured_model_is_predefined_or_custom (opts : list Option) :
  Forall libraryOption opts ->
  persons (configured opts) = ∅ /\
  (Type_ (modelConfig (configured opts)) = ModelCustom \/
   modelConfigs !! Type_ (modelConfig (configured opts))
   = Some (modelConfig (configured opts))) /\
  (forall fr, WithModelType ModelCustom fr = fr) /\
  (forall config fr,
     Type_ (GetModelConfig (WithCustomModel config fr)) = ModelCustom).
Proof.
  intros Hopts. unfold configured.
  set (fr0 := mkFaceRecognizer _ _ _ _).
  assert (H0 : persons fr0 = ∅ /\
               (Type_ (modelConfig fr0) = ModelCustom \/
                modelConfigs !! Type_ (modelConfig fr0)
                = Some (modelConfig fr0))).
  { split; [reflexivity|]. right. vm_compute. reflexivity. }
  clearbody fr0.
  assert (Hinv : persons (fold_left (fun fr opt => opt fr) opts fr0) = ∅ /\
               (Type_ (modelConfig (fold_left (fun fr opt => opt fr) opts fr0))
                = ModelCustom \/
                modelConfigs !!
                  Type_ (modelConfig
                           (fold_left (fun fr opt => opt fr) opts fr0))
                = Some (modelConfig
                          (fold_left (fun fr opt => opt fr) opts fr0)))).
  { revert fr0 H0.
    induction Hopts as [|opt opts Hopt _ IH]; intros fr [Hp Hm];
      [split; assumption|].
    simpl. apply IH.
    destruct Hopt; simpl; try (split; assumption).
    - unfold WithModelType.
      destruct (modelConfigs !! modelType) as [config|] eqn:Hc;
        [|split; assumption].
      simpl. split; [exact Hp|]. right.
      rewrite (modelConfigs_consistent _ _ Hc). exact Hc.
    - split; [exact Hp|]. left. reflexivity. }
  destruct Hinv as [Hp Hm]. split; [exact Hp|]. split; [exact Hm|].
  split; [|reflexivity].
  intros fr. reflexivity.
Qed.

Lemma configured_model_is_predefined_or_custom_witness :
  persons (configured [WithModelType ModelArcFace; WithMinFaceSize 50]) = ∅ /\
  FeatureDim (modelConfig
                (configured [WithModelType ModelArcFace; WithMinFaceSize 50]))
  = 512.
Proof.
  split; [|reflexivity].
  apply (configured_model_is_predefined_or_custom
           [WithModelType ModelArcFace; WithMinFaceSize 50]).
  repeat constructor.
Defined.

(** ** Storage backends: copies, deletion, counting *)

Lemma fresh_struct (h : Heap) (q : loc) :
  is_Some (structs h !! q) -> fresh (dom (structs h)) <> q.
Proof.
  intros Hq Heq. apply elem_of_dom in Hq. rewrite <- Heq in Hq.
  exact (is_fresh _ Hq).
Qed.

(** X15.  [MemoryStorage] keeps its own struct for each person and hands out
    another one on every load, so assignments to the fields [Name] and
    [Features] do not reach the store: after [SavePerson], whatever the
    caller assigns to these fields of the person it saved, and whatever
    it assigns to them through a pointer a [LoadPerson] returned, the
    next [LoadPerson] returns a person with the id, the name and the
    samples the saved person had when it was saved. *)
Theorem MemoryStorage_copies_the_struct
    (s : MemoryStorage.t) (h : Heap) (person : loc) (c : PersonCell)
    (name name' : string) (fs fs' : list FeatureCell) :
  structs h !! person = Some c ->
  exists q h1,
    MemoryStorage.SavePerson s h person = (<[cID c := q]> s, h1, Ok tt) /\
    q <> person /\
    exists q' h2,
      MemoryStorage.LoadPerson (<[cID c := q]> s)
        (setName (setFeatures h1 person fs) person name) (cID c)
      = (h2, Ok q') /\
      q' <> q /\ q' <> person /\
      deref h2 q' = deref h person /\
      exists q'' h3,
        MemoryStorage.LoadPerson (<[cID c := q]> s)
          (setName (setFeatures h2 q' fs') q' name') (cID c)
        = (h3, Ok q'') /\
        deref h3 q'' = deref h person.
Proof.
  intros Hp. unfold MemoryStorage.SavePerson. rewrite Hp.
  unfold copyPerson, newStruct.
  set (q := fresh (dom (structs h))).
  set (copy := mkPersonCell (cID c) (cName c) (cFeatures c)).
  assert (Hq : q <> person) by (apply fresh_struct; eauto).
  eexists q, _. split; [reflexivity|]. split; [exact Hq|].
  set (hc := setName (setFeatures _ person fs) person name).
  assert (Hcq : structs hc !! q = Some copy).
  { subst hc. unfold setName, setFeatures. simpl.
    rewrite !lookup_alter_ne by congruence. apply lookup_insert_eq. }
  assert (Hcp : is_Some (structs hc !! person)).
  { subst hc. unfold setName, setFeatures. simpl.
    rewrite !lookup_alter_eq, lookup_insert_ne, Hp by exact Hq.
    simpl. eauto. }
  unfold MemoryStorage.LoadPerson. rewrite lookup_insert_eq, Hcq.
  unfold copyPerson, newStruct.
  set (q' := fresh (dom (structs hc))).
  assert (Hq'q : q' <> q) by (apply fresh_struct; eauto).
  assert (Hq'p : q' <> person) by (apply fresh_struct; exact Hcp).
  eexists q', _. split; [reflexivity|].
  split; [exact Hq'q|]. split; [exact Hq'p|].
  split.
  { unfold deref. simpl. rewrite lookup_insert_eq, Hp. reflexivity. }
  set (hl := setName (setFeatures _ q' fs') q' name').
  assert (Hlq : structs hl !! q = Some copy).
  { subst hl. unfold setName, setFeatures. simpl.
    rewrite !lookup_alter_ne by congruence.
    rewrite lookup_insert_ne by congruence. exact Hcq. }
  rewrite Hlq. eexists _, _. split; [reflexivity|].
  unfold deref. simpl. rewrite lookup_insert_eq, Hp. reflexivity.
Qed.

Lemma MemoryStorage_copies_the_struct_witness :
  exists q saved q' loaded,
    MemoryStorage.SavePerson ∅ h2 alice = (<["001" := q]> ∅, saved, Ok tt) /\
    MemoryStorage.LoadPerson (<["001" := q]> ∅)
      (setName (setFeatures saved alice []) alice "Mallory") "001"
    = (loaded, Ok q') /\
    deref loaded q' = Some aliceValue.
Proof.
  destruct (MemoryStorage_copies_the_struct ∅ h2 alice
              (mkPersonCell "001" "Alice"
                 [mkFeatureCell "001" (Some 1%positive)])
              "Mallory" "Eve" [] [] eq_refl)
    as (q & saved & Hsave & _ & q' & loaded & Hload & _ & _ & Hderef & _).
  exists q, saved, q', loaded. split; [exact Hsave|]. split; [exact Hload|].
  rewrite Hderef. reflexivity.
Defined.

Lemma Forall2_weaken_l {A B} (P P' : A -> B -> Prop) (Q : A -> Prop)
    (l : list A) (k : list B) :
  Forall Q l -> Forall2 P l k ->
  (forall a b, Q a -> P a b -> P' a b) -> Forall2 P' l k.
Proof.
  intros HQ HP Himpl. revert HQ.
  induction HP as [|a b l k Hab _ IH]; intros HQ; [constructor|].
  inversion HQ; subst. constructor; auto.
Qed.

(** What the loop of [MemoryStorage.LoadAllPersons] builds: for every
    entry a new struct with the fields of the stored one. *)
Lemma MemoryStorage_loadAll_copies (visit : list (string * loc)) :
  forall h acc,
    Forall (fun entry => is_Some (structs h !! entry.2)) visit ->
    exists h' copies,
      MemoryStorage.loadAll h visit acc = (h', Ok (acc ++ copies)) /\
      arrays h' = arrays h /\
      structs h ⊆ structs h' /\
      Forall2 (fun entry q =>
                 structs h !! q = None /\
                 exists c, structs h !! entry.2 = Some c /\
                           structs h' !! q
                           = Some (mkPersonCell (cID c) (cName c)
                                                (cFeatures c)))
              visit copies.
Proof.
  induction visit as [|[id p] rest IH]; intros h acc Hall.
  { exists h, []. simpl. rewrite app_nil_r.
    split; [reflexivity|]. split; [reflexivity|]. split; [reflexivity|].
    constructor. }
  inversion Hall as [|? ? [c Hp] Hrest]; subst. simpl in Hp. simpl.
  rewrite Hp. unfold copyPerson, newStruct.
  set (q := fresh (dom (structs h))).
  set (copy := mkPersonCell (cID c) (cName c) (cFeatures c)).
  set (h1 := mkHeap (<[q := copy]> (structs h)) (arrays h)).
  assert (Hfresh : structs h !! q = None)
    by apply not_elem_of_dom, is_fresh.
  assert (Hsub : structs h ⊆ structs h1)
    by (apply insert_subseteq; exact Hfresh).
  destruct (IH h1 (acc ++ [q])) as (h' & copies & Hrun & Ha & Hs & Hcopies).
  { eapply Forall_impl; [exact Hrest|]. intros entry [c' Hc'].
    exists c'. eapply lookup_weaken; eassumption. }
  exists h', (q :: copies). rewrite Hrun, <- app_assoc.
  split; [reflexivity|]. split; [exact Ha|].
  split; [etrans; eassumption|].
  constructor.
  - split; [exact Hfresh|]. exists c. split; [exact Hp|].
    eapply lookup_weaken; [|exact Hs]. apply lookup_insert_eq.
  - eapply Forall2_weaken_l; [exact Hrest|exact Hcopies|].
    intros entry q' [c' Hc'] (Hq' & c'' & Hc'' & Hcopy).
    split; [eapply lookup_weaken_None; eassumption|].
    exists c'. split; [exact Hc'|].
    rewrite (lookup_weaken _ _ _ _ Hc' Hsub) in Hc''.
    injection Hc'' as <-. exact Hcopy.
Qed.

Lemma countFeatures_total (h : Heap) (persons : list loc) :
  forall total,
    Forall (fun person => is_Some (structs h !! person)) persons ->
    0 <= total -> total + totalSamples h persons < 2 ^ 63 ->
    countFeatures h persons total = Ok (total + totalSamples h persons).
Proof.
  induction persons as [|p l IH]; intros total Hall Hpos Hbound; simpl.
  { f_equal. lia. }
  inversion Hall as [|? ? [c Hp] Hrest]; subst. rewrite Hp.
  simpl in Hbound. unfold samplesAt in *. rewrite Hp in *.
  assert (0 <= totalSamples h l).
  { clear. induction l as [|q l IH]; simpl; [lia|].
    unfold samplesAt at 1. destruct (structs h !! q); lia. }
  rewrite wrap64_small by lia.
  rewrite IH; [f_equal; lia|exact Hrest|lia|lia].
Qed.

(** X16.  [LoadAllPersons] of a [MemoryStorage] returns one person for each
    stored id, each in a struct that did not exist before and with the
    value of the stored person; [GetStorageMetadata] on this backend
    then reports the number of stored ids and the total number of their
    samples. *)
Theorem MemoryStorage_LoadAllPersons_complete
    (s : MemoryStorage.t) (h : Heap) (visit : list (string * loc)) :
  ranges s visit ->
  (forall id p, s !! id = Some p -> is_Some (structs h !! p)) ->
  totalSamples h visit.*2 < 2 ^ 63 ->
  exists h' copies,
    MemoryStorage.LoadAllPersons h visit = (h', Ok copies) /\
    length copies = size s /\
    Forall2 (fun entry q =>
               s !! entry.1 = Some entry.2 /\
               structs h !! q = None /\ deref h' q = deref h entry.2)
            visit copies /\
    GetStorageMetadata h' (Ok copies)
    = Ok (mkStorageMetadata (Z.of_nat (size s)) (totalSamples h visit.*2)).
Proof.
  intros Hvisit Halloc Hbound.
  assert (Hin : Forall (fun entry => s !! entry.1 = Some entry.2) visit).
  { apply Forall_forall. intros [id p] Hin. simpl.
    apply elem_of_map_to_list. unfold ranges in Hvisit.
    rewrite <- Hvisit. exact Hin. }
  assert (Hall : Forall (fun entry => is_Some (structs h !! entry.2)) visit).
  { eapply Forall_impl; [exact Hin|]. intros [id p] Hp. eapply Halloc, Hp. }
  destruct (MemoryStorage_loadAll_copies visit h [] Hall)
    as (h' & copies & Hrun & Ha & Hs & Hcopies).
  assert (Hlen : length copies = size s).
  { rewrite <- (Forall2_length _ _ _ Hcopies).
    unfold ranges in Hvisit. rewrite Hvisit.
    apply length_map_to_list. }
  exists h', copies. split; [exact Hrun|]. split; [exact Hlen|].
  split.
  { eapply Forall2_weaken_l; [exact Hin|exact Hcopies|].
    intros entry q Hentry (Hq & c & Hc & Hcopy).
    split; [exact Hentry|]. split; [exact Hq|].
    unfold deref. rewrite Hcopy, Hc. simpl. f_equal.
    destruct c. apply readCell_arrays. exact Ha. }
  unfold GetStorageMetadata.
  assert (Htotal : totalSamples h' copies = totalSamples h visit.*2).
  { clear - Hcopies. induction Hcopies as [|entry q l k (_ & c & Hc & Hq) _ IH];
      simpl; [reflexivity|].
    rewrite IH. unfold samplesAt. rewrite Hq, Hc. reflexivity. }
  rewrite countFeatures_total.
  - rewrite Htotal, Hlen. reflexivity.
  - clear - Hcopies.
    induction Hcopies as [|entry q l k (_ & c & _ & Hq) _ IH];
      constructor; eauto.
  - lia.
  - rewrite Htotal. lia.
Qed.

Lemma MemoryStorage_LoadAllPersons_complete_witness :
  exists h' copies,
    MemoryStorage.LoadAllPersons h12 (map_to_list memoryStore12)
    = (h', Ok copies) /\
    GetStorageMetadata h' (Ok copies) = Ok (mkStorageMetadata 2 1).
Proof.
  destruct (MemoryStorage_LoadAllPersons_complete memoryStore12 h12
              (map_to_list memoryStore12))
    as (h' & copies & Hload & _ & _ & Hmeta).
  - unfold ranges. reflexivity.
  - intros id p Hp.
    destruct (decide (id = "001")) as [->|Hne1].
    + injection Hp as <-. eexists. reflexivity.
    + destruct (decide (id = "002")) as [->|Hne2].
      * injection Hp as <-. eexists. reflexivity.
      * exfalso. unfold memoryStore12 in Hp.
        rewrite lookup_insert_ne in Hp by congruence.
        rewrite lookup_singleton_ne in Hp by congruence. discriminate.
  - vm_compute. reflexivity.
  - exists h', copies. split; [exact Hload|].
    rewrite Hmeta. vm_compute. reflexivity.
Defined.

(** X17.  [DeletePerson] of a stored id removes it from a [MemoryStorage]:
    [PersonExists], which was true, is false afterwards, [LoadPerson]
    and a second [DeletePerson] report "person not found", there is one
    person less, and the other ids are stored as before.  [DeletePerson]
    of an id that is not stored fails and changes nothing. *)
Theorem MemoryStorage_DeletePerson_removes
    (s : MemoryStorage.t) (h : Heap) (id : string) :
  let notFound := ("person not found: " ++ id)%string in
  match s !! id with
  | Some _ =>
      MemoryStorage.PersonExists s id = Ok true /\
      exists s',
        MemoryStorage.DeletePerson s id = (s', Ok tt) /\
        MemoryStorage.PersonExists s' id = Ok false /\
        MemoryStorage.LoadPerson s' h id = (h, Err notFound) /\
        MemoryStorage.DeletePerson s' id = (s', Err notFound) /\
        S (size s') = size s /\
        forall other, other <> id ->
          MemoryStorage.PersonExists s' other
          = MemoryStorage.PersonExists s other /\
          MemoryStorage.LoadPerson s' h other
          = MemoryStorage.LoadPerson s h other
  | None =>
      MemoryStorage.PersonExists s id = Ok false /\
      MemoryStorage.DeletePerson s id = (s, Err notFound)
  end.
Proof.
  intros notFound.
  destruct (s !! id) as [q|] eqn:Hid.
  - unfold MemoryStorage.PersonExists, MemoryStorage.DeletePerson,
      MemoryStorage.LoadPerson.
    rewrite Hid. split; [reflexivity|].
    exists (delete id s). rewrite !lookup_delete_eq.
    repeat (split; [reflexivity|]).
    split.
    { rewrite <- (insert_delete_id s id q Hid) at 2.
      rewrite map_size_insert_None by apply lookup_delete_eq. reflexivity. }
    intros other Hne. rewrite !lookup_delete_ne by congruence.
    split; reflexivity.
  - unfold MemoryStorage.PersonExists, MemoryStorage.DeletePerson.
    rewrite Hid. split; reflexivity.
Qed.

Section PersistenceFacts.

Context `{Env}.

(** X18.  [JSONStorage.DeletePerson] deletes from the map in memory before
    it saves, and does not undo that when saving fails: whatever the
    call returns for a stored id, the id is not stored afterwards.
    The call returns nil exactly when the rest of the map could be
    encoded and the file written; when the encoder rejects NaN and
    another stored person has one among its embeddings, the call
    returns an error and the file system is as before. *)
Theorem JSONStorage_DeletePerson_forgets_even_on_error
    (s : JSONStorage.t) (h : Heap) (fs : FS) (id : string) (p : loc) :
  JSONStorage.persons s !! id = Some p ->
  let s' := JSONStorage.mk (JSONStorage.filepath s)
                           (delete id (JSONStorage.persons s)) in
  exists fs' r,
    JSONStorage.DeletePerson s h fs id = (s', fs', r) /\
    JSONStorage.PersonExists s' id = Ok false /\
    JSONStorage.LoadPerson s' id = Err ("person not found: " ++ id) /\
    (r = Ok tt <->
     exists data,
       MarshalIndentMap (deref h <$> JSONStorage.persons s') = Ok data /\
       WriteFile fs (JSONStorage.filepath s) data = (fs', None)) /\
    (rejects_NaN ->
     forall other q value,
       other <> id -> JSONStorage.persons s !! other = Some q ->
       deref h q = Some value -> hasNaN value ->
       fs' = fs /\ exists msg, r = Err msg).
Proof.
  intros Hid s'. unfold JSONStorage.DeletePerson. rewrite Hid.
  fold s'. unfold JSONStorage.save.
  assert (Hgone : JSONStorage.PersonExists s' id = Ok false /\
                  JSONStorage.LoadPerson s' id
                  = Err ("person not found: " ++ id)).
  { unfold JSONStorage.PersonExists, JSONStorage.LoadPerson. simpl.
    rewrite lookup_delete_eq. split; reflexivity. }
  destruct Hgone as [Hexists Hload].
  destruct (MarshalIndentMap (deref h <$> JSONStorage.persons s'))
    as [data|msg|] eqn:Hm.
  - destruct (WriteFile fs (JSONStorage.filepath s') data)
      as [fs' [msg|]] eqn:Hw.
    + exists fs', (Err msg). split; [reflexivity|].
      split; [exact Hexists|]. split; [exact Hload|]. split.
      * split; [discriminate|].
        intros (data' & [= <-] & Hw'). simpl in Hw.
        rewrite Hw in Hw'. discriminate.
      * intros Hlaw other q value Hne Hq Hv Hnan. exfalso.
        destruct (Hlaw (deref h <$> JSONStorage.persons s') other value)
          as [msg' Hmsg]; [|exact Hnan|congruence].
        simpl. rewrite lookup_fmap, lookup_delete_ne, Hq by congruence.
        simpl. rewrite Hv. reflexivity.
    + exists fs', (Ok tt). split; [reflexivity|].
      split; [exact Hexists|]. split; [exact Hload|]. split.
      * split; [|reflexivity]. intros _. exists data. auto.
      * intros Hlaw other q value Hne Hq Hv Hnan. exfalso.
        destruct (Hlaw (deref h <$> JSONStorage.persons s') other value)
          as [msg' Hmsg]; [|exact Hnan|congruence].
        simpl. rewrite lookup_fmap, lookup_delete_ne, Hq by congruence.
        simpl. rewrite Hv. reflexivity.
  - exists fs, (Err msg). split; [reflexivity|].
    split; [exact Hexists|]. split; [exact Hload|]. split.
    + split; [discriminate|]. intros (data & Hd & _). discriminate.
    + intros _ other q value _ _ _ _. split; [reflexivity|]. eauto.
  - exists fs, Panic. split; [reflexivity|].
    split; [exact Hexists|]. split; [exact Hload|]. split.
    + split; [discriminate|]. intros (data & Hd & _). discriminate.
    + intros Hlaw other q value Hne Hq Hv Hnan. exfalso.
      destruct (Hlaw (deref h <$> JSONStorage.persons s') other value)
        as [msg' Hmsg]; [|exact Hnan|congruence].
      simpl. rewrite lookup_fmap, lookup_delete_ne, Hq by congruence.
      simpl. rewrite Hv. reflexivity.
Qed.

(** X19.  One person that cannot be encoded stops all saving.  When the
    encoder rejects NaN and a person with a NaN among its embeddings
    is in the registry, [SaveDatabase] fails with "failed to marshal
    database" and writes nothing; when such a person is in a
    [JSONStorage], [Close] fails and writes nothing, and so does
    [SavePerson] of any other person, which is in the map in memory
    all the same. *)
Theorem unencodable_person_blocks_saving
    (h : Heap) (fs : FS) (registry : gmap string loc)
    (id : string) (p : loc) (value : Person) :
  rejects_NaN ->
  registry !! id = Some p -> deref h p = Some value -> hasNaN value ->
  (forall fr filepath,
     persons fr = registry ->
     exists msg,
       SaveDatabase fr h fs filepath
       = (fs, Err ("failed to marshal database: " ++ msg))) /\
  (forall s,
     JSONStorage.persons s = registry ->
     (exists msg, JSONStorage.Close s h fs = (fs, Err msg)) /\
     forall person c,
       structs h !! person = Some c -> cID c <> id ->
       exists s' msg,
         JSONStorage.SavePerson s h fs person = (s', fs, Err msg) /\
         JSONStorage.LoadPerson s' (cID c) = Ok person).
Proof.
  intros Hlaw Hid Hv Hnan.
  assert (Hfail : forall m : gmap string loc,
             m !! id = Some p ->
             exists msg, MarshalIndentMap (deref h <$> m) = Err msg).
  { intros m Hm. apply (Hlaw _ id value); [|exact Hnan].
    rewrite lookup_fmap, Hm. simpl. rewrite Hv. reflexivity. }
  split.
  - intros fr filepath Hfr. unfold SaveDatabase.
    destruct (Hfail (persons fr)) as [msg ->]; [congruence|].
    exists msg. reflexivity.
  - intros s Hs. split.
    + unfold JSONStorage.Close, JSONStorage.save.
      destruct (Hfail (JSONStorage.persons s)) as [msg ->]; [congruence|].
      exists msg. reflexivity.
    + intros person c Hc Hne. unfold JSONStorage.SavePerson. rewrite Hc.
      unfold JSONStorage.save. simpl.
      destruct (Hfail (<[cID c := person]> (JSONStorage.persons s)))
        as [msg ->].
      { rewrite lookup_insert_ne by exact Hne. congruence. }
      eexists _, msg. split; [reflexivity|].
      unfold JSONStorage.LoadPerson. simpl.
      rewrite lookup_insert_eq. reflexivity.
Qed.

End PersistenceFacts.

(** *** The reference encoder rejects NaN *)

Lemma insertEntry_In {V} (k : string) (v : V) (l : list (string * V))
    (x : string * V) :
  In x l -> In x (RefEnv.insertEntry k v l).
Proof.
  induction l as [|[k' v'] l IH]; simpl; [intros []|].
  destruct (String.leb k k'); simpl.
  - intros Hx. right. exact Hx.
  - intros [<-|Hx]; [left; reflexivity|right; apply IH, Hx].
Qed.

Lemma insertEntry_head {V} (k : string) (v : V) (l : list (string * V)) :
  In (k, v) (RefEnv.insertEntry k v l).
Proof.
  induction l as [|[k' v'] l IH]; simpl; [left; reflexivity|].
  destruct (String.leb k k'); simpl; [left; reflexivity|right; exact IH].
Qed.

Lemma sortEntries_In {V} (l : list (string * V)) (x : string * V) :
  In x l -> In x (RefEnv.sortEntries l).
Proof.
  unfold RefEnv.sortEntries.
  induction l as [|[k v] l IH]; simpl; [intros []|].
  intros [<-|Hx]; [apply insertEntry_head|apply insertEntry_In, IH, Hx].
Qed.

Lemma firstUnsupported_NaN (p : Person) :
  hasNaN p -> is_Some (RefEnv.firstUnsupported p).
Proof.
  intros (sample & Hs & Hnan). unfold RefEnv.firstUnsupported.
  assert (Hin : Some "NaN"%string
                ∈ map RefEnv.unsupported (flat_map Feature (Features p))).
  { apply list_elem_of_In, in_map_iff. exists S754_nan.
    split; [reflexivity|]. apply in_flat_map. eauto. }
  destruct (list_find_elem_of (fun o : option string => is_Some o)
              _ _ Hin) as [[i o] Hfind]; [eauto|].
  rewrite Hfind. simpl.
  apply list_find_Some in Hfind as (_ & Ho & _). exact Ho.
Qed.

Lemma marshalEntries_unsupported (l : list (string * option Person))
    (k : string) (p : Person) :
  In (k, Some p) l -> is_Some (RefEnv.firstUnsupported p) ->
  exists msg, RefEnv.marshalEntries l = Err msg.
Proof.
  intros Hin [v Hv].
  induction l as [|[k' o] l IH]; simpl; [destruct Hin|].
  destruct (o ≫= RefEnv.firstUnsupported) as [v'|] eqn:Ho; [eauto|].
  destruct Hin as [[= -> ->]|Hin].
  - simpl in Ho. congruence.
  - destruct (IH Hin) as [msg ->]. eauto.
Qed.

Lemma RefEnv_rejects_NaN : rejects_NaN (H := RefEnv.env).
Proof.
  unfold rejects_NaN. simpl. intros m k p Hk Hnan.
  unfold RefEnv.marshalMap.
  destruct (marshalEntries_unsupported
              (RefEnv.sortEntries (map_to_list m)) k p) as [msg ->].
  - apply sortEntries_In, list_elem_of_In, elem_of_map_to_list, Hk.
  - apply firstUnsupported_NaN, Hnan.
  - eauto.
Qed.

Lemma nanValue_hasNaN : hasNaN nanValue.
Proof.
  exists (mkFaceFeature "nan" [S754_nan; F32.zero]).
  split; left; reflexivity.
Qed.

Lemma JSONStorage_DeletePerson_forgets_even_on_error_witness :
  exists fs' r,
    deleteJSON jsonStoreNaNAlice hNaNAlice db0 "001"
    = (JSONStorage.mk "db/faces.json"
         (delete "001" (JSONStorage.persons jsonStoreNaNAlice)),
       fs', r) /\
    fs' = db0 /\ exists msg, r = Err msg.
Proof.
  destruct (JSONStorage_DeletePerson_forgets_even_on_error
              (H := RefEnv.env) jsonStoreNaNAlice
              hNaNAlice db0 "001" 2%positive ltac:(vm_compute; reflexivity))
    as (fs' & r & Hdel & _ & _ & _ & Hnan).
  exists fs', r. split; [exact Hdel|].
  apply (Hnan RefEnv_rejects_NaN "nan" 1%positive nanValue).
  - discriminate.
  - reflexivity.
  - reflexivity.
  - exact nanValue_hasNaN.
Defined.

Lemma unencodable_person_blocks_saving_witness :
  (exists msg,
     saveDatabase frNaN hNaNAlice db0 "db/faces.json"
     = (db0, Err ("failed to marshal database: " ++ msg))) /\
  (exists msg, closeJSON jsonStoreNaN hNaNAlice db0 = (db0, Err msg)).
Proof.
  destruct (unencodable_person_blocks_saving (H := RefEnv.env)
              hNaNAlice db0 (persons frNaN) "nan" 1%positive
              nanValue RefEnv_rejects_NaN ltac:(vm_compute; reflexivity)
              ltac:(vm_compute; reflexivity) nanValue_hasNaN)
    as [Hdb Hjson].
  split.
  - apply (Hdb frNaN "db/faces.json"). reflexivity.
  - apply (Hjson jsonStoreNaN). reflexivity.
Defined.

Section EnrolmentAndPersistence.

Context `{Env}.
Context {Mat GoImage : Type}.
Variable ToImage : Mat -> option GoImage.
Variable Region : Mat -> Rectangle -> Mat.
Variable MatEmpty : Mat -> bool.
Variable cascade : PigoParams -> GoImage -> list Detection.
Variable forward :
  Z * Z -> spec_float -> list spec_float -> bool -> bool -> Mat ->
  list float32.

(** X20.  Nothing between the network and the registry looks at the values
    of an embedding.  When the output of the network for the first
    detected face has a NaN component, [AddFaceSample] succeeds and the
    person has one sample more; from then on, with an encoder that
    rejects NaN, [SaveDatabase] fails with "failed to marshal
    database" and writes nothing. *)
Theorem AddFaceSample_stores_NaN_embedding
    (fr : FaceRecognizer) (h : Heap) (personID : string) (img : Mat)
    (person : loc) (c : PersonCell) (goImg : GoImage)
    (face0 : Rectangle) (rest : list Rectangle) :
  rejects_NaN ->
  persons fr !! personID = Some person ->
  structs h !! person = Some c ->
  ToImage img = Some goImg ->
  DetectFaces GoImage cascade fr goImg = face0 :: rest ->
  MatEmpty (Region img face0) = false ->
  In S754_nan
     (forward (InputSize (modelConfig fr)) (ScaleFactor (modelConfig fr))
              (MeanValues (modelConfig fr)) (SwapRB (modelConfig fr))
              (Crop (modelConfig fr)) (Region img face0)) ->
  exists h',
    AddFaceSample Mat GoImage ToImage Region MatEmpty cascade forward
      fr h personID img = Ok h' /\
    GetSampleCount fr h' personID
    = Ok (Z.of_nat (length (cFeatures c)) + 1) /\
    forall fs filepath,
      exists msg,
        SaveDatabase fr h' fs filepath
        = (fs, Err ("failed to marshal database: " ++ msg)).
Proof.
  intros Hlaw Hid Hp Himg Hfaces Hne Hnan.
  destruct (AddFaceSample_success ToImage Region MatEmpty cascade forward
              fr h personID img person c goImg face0 rest
              Hid Hp Himg Hfaces Hne) as (a & Hfresh & Heq).
  eexists. split; [exact Heq|]. split.
  { unfold GetSampleCount. rewrite Hid. simpl. rewrite lookup_insert_eq.
    simpl. rewrite length_app. simpl. f_equal. lia. }
  intros fs filepath. unfold SaveDatabase.
  match goal with
  | |- context [MarshalIndentMap ?m] =>
      destruct (Hlaw m personID
                  (mkPerson (cID c) (cName c)
                     (map (readFeature
                             (mkHeap
                                (<[person := mkPersonCell (cID c) (cName c)
                                     (cFeatures c ++
                                      [mkFeatureCell personID (Some a)])]>
                                   (structs h))
                                (<[a := encoded Mat forward fr
                                          (Region img face0)]> (arrays h))))
                          (cFeatures c ++
                           [mkFeatureCell personID (Some a)]))))
        as [msg ->]
  end.
  - rewrite lookup_fmap, Hid. simpl. unfold deref. simpl.
    rewrite lookup_insert_eq. reflexivity.
  - exists (mkFaceFeature personID
              (encoded Mat forward fr (Region img face0))).
    split.
    + simpl. apply in_map_iff.
      exists (mkFeatureCell personID (Some a)). split.
      * unfold readFeature, readSlice. simpl.
        rewrite lookup_insert_eq. reflexivity.
      * apply in_app_iff. right. left. reflexivity.
    + simpl. unfold encoded.
      rewrite normalizeFeature_nan_all by exact Hnan.
      apply in_map_iff. exists S754_nan. auto.
  - exists msg. reflexivity.
Qed.

End EnrolmentAndPersistence.

Lemma AddFaceSample_stores_NaN_embedding_witness :
  exists h',
    AddFaceSample Mat GoImage ToImage Region MatEmpty cascade forwardNaN
      fr1 h1 "001" picture = Ok h' /\
    GetSampleCount fr1 h' "001" = Ok 1 /\
    exists msg,
      saveDatabase fr1 h' db0 "db/faces.json"
      = (db0, Err ("failed to marshal database: " ++ msg)).
Proof.
  destruct (AddFaceSample_stores_NaN_embedding (H := RefEnv.env)
              ToImage Region MatEmpty cascade forwardNaN
              fr1 h1 "001" picture alice (mkPersonCell "001" "Alice" []) tt
              (faceRectangle det1) [faceRectangle det2]
              RefEnv_rejects_NaN)
    as (h' & Hadd & Hcount & Hsave);
    try (vm_compute; reflexivity).
  - right. left. reflexivity.
  - exists h'. split; [exact Hadd|]. split; [exact Hcount|].
    apply (Hsave db0 "db/faces.json").
Defined.

(** ** Concurrent calls: the mutex of a person *)

(** X21.  In every state that concurrent calls of [AddFaceSample] can reach,
    at most one goroutine is between [person.mu.Lock()] and
    [person.mu.Unlock()] of the same person, and that goroutine is the
    holder of the person's mutex and was called for the id the person
    is registered under; no goroutine has panicked, and the registry
    map is the one the calls started with. *)
Theorem concurrent_AddFaceSample_mutual_exclusion
    (h : Heap) (registry : gmap string loc)
    (calls : list (string * FeatureCell)) (schedule : list nat) (w : World) :
  (forall id person, registry !! id = Some person ->
                     is_Some (structs h !! person)) ->
  run (start h registry calls) schedule = Some w ->
  (forall i j ti tj person,
      wThreads w !! i = Some ti -> wThreads w !! j = Some tj ->
      inCritical person ti -> inCritical person tj -> i = j) /\
  (forall i t person,
      wThreads w !! i = Some t -> inCritical person t ->
      wLocks w !! person = Some i /\
      registry !! gPersonID t = Some person) /\
  (forall t, In t (wThreads w) -> gpc t <> Panicked) /\
  wPersons w = registry.
Proof.
  intros Halloc Hrun.
  assert (Hinv : invariant h registry calls w).
  { eapply run_preserves; [exact Halloc| |exact Hrun].
    apply invariant_start. }
  assert (Hholder : forall i t person,
             wThreads w !! i = Some t -> inCritical person t ->
             wLocks w !! person = Some i /\
             registry !! gPersonID t = Some person).
  { intros i t person Hi Hcrit.
    pose proof (inv_threads _ _ _ _ Hinv i t Hi) as Hcons.
    unfold consistent in Hcons. unfold inCritical in Hcrit.
    rewrite (inv_persons _ _ _ _ Hinv) in Hcons.
    destruct (gpc t); try contradiction; subst;
      destruct Hcons as (Hreg & Hlock & _) || destruct Hcons as (Hreg & Hlock);
      auto. }
  split; [|split; [exact Hholder|split]].
  - intros i j ti tj person Hi Hj Hci Hcj.
    destruct (Hholder i ti person Hi Hci) as [Hli _].
    destruct (Hholder j tj person Hj Hcj) as [Hlj _].
    congruence.
  - intros t Ht Hp.
    apply list_elem_of_In, list_elem_of_lookup_1 in Ht as [i Hi].
    pose proof (inv_threads _ _ _ _ Hinv i t Hi) as Hcons.
    unfold consistent in Hcons. rewrite Hp in Hcons. exact Hcons.
  - exact (inv_persons _ _ _ _ Hinv).
Qed.

Lemma concurrent_AddFaceSample_mutual_exclusion_witness :
  exists w,
    run (start heapXY registryXY callsXXY) prefixXXY = Some w /\
    wLocks w !! 1%positive = Some 0%nat /\
    forall t, In t (wThreads w) -> gpc t <> Panicked.
Proof.
  destruct (run (start heapXY registryXY callsXXY) prefixXXY) as [w|]
    eqn:Hrun; [|vm_compute in Hrun; discriminate].
  exists w. split; [reflexivity|].
  destruct (concurrent_AddFaceSample_mutual_exclusion heapXY registryXY
              callsXXY prefixXXY w) as (_ & _ & Hpanic & _).
  { intros id person Hreg. unfold registryXY in Hreg.
    apply lookup_insert_Some in Hreg as [[_ <-]|[_ Hreg]];
      [vm_compute; eauto|].
    apply lookup_singleton_Some in Hreg as [_ <-]. vm_compute. eauto. }
  { exact Hrun. }
  split; [|exact Hpanic].
  vm_compute in Hrun. injection Hrun as <-. reflexivity.
Defined.
